(** * Table lifecycle of the nftables backend (daemon/firewall/nftables/tables.go)

    A shallow embedding of [AddTable], [getTable], [getTableKey],
    [addInterceptionTables], [addSystemTables], [nonSystemRules] and
    [delSystemTables].  The Go code talks to the kernel through a netlink
    connection ([n.conn]) and keeps a package-level registry ([sysTables]) and
    a log; here all three live in one explicit state that every function
    takes and returns. *)

From Stdlib Require Import Ascii.
From stdpp Require Import base numbers strings list gmap fin_maps.

Local Open Scope Z_scope.

(** ** Go's [int] *)

(** [t += len(rules)] is an addition on Go's [int], 64 bits wide on the
    platforms the daemon is built for; it wraps around in two's complement. *)
Definition int_wrap (z : Z) : Z := (z + 2 ^ 63) mod 2 ^ 64 - 2 ^ 63.

Definition int_add (x y : Z) : Z := int_wrap (x + y).

(** ** Objects of github.com/google/nftables that tables.go handles *)

(** [nftables.TableFamily] is a byte-sized code, printed with [%d]. *)
Definition TableFamily : Type := Z.

(** [nftables.Table], with the two fields tables.go fills in and reads. *)
Record Table : Type := { Family : TableFamily; Name : string }.

#[global] Instance Table_eq_dec : EqDecision Table.
Proof. solve_decision. Defined.

(** [nftables.Chain]: its name and the table it belongs to ([c.Table]). *)
Record Chain : Type := { ChainName : string; CTable : Table }.

#[global] Instance Chain_eq_dec : EqDecision Chain.
Proof. solve_decision. Defined.

(** [nftables.Rule].  tables.go only takes the length of rule slices;
    [FromDaemon] records who installed the rule, so that the number of rules
    "that we didn't add" can be written down next to what the code counts. *)
Record Rule : Type := { RuleHandle : Z; FromDaemon : bool }.

(** ** The netlink connection [n.conn] and the kernel behind it *)

(** What the kernel holds: its tables, and every chain with its rules. *)
Record Kernel : Type := {
  tables : list Table;
  chains : list (Chain * list Rule)
}.

(** Requests queued by [conn.AddTable] and [conn.DelTable] until [Flush]. *)
Inductive Msg : Type :=
  | NewTable (t : Table)
  | DelTableMsg (t : Table).

(** The connection: the kernel it reaches, the queued batch, the number of
    round trips made so far, and the environment's answer to each round trip
    ([netlink_ok i = false]: the i-th round trip returns an error). *)
Record Conn : Type := {
  kernel : Kernel;
  messages : list Msg;
  clock : nat;
  netlink_ok : nat → bool
}.

(** Creating a table that exists leaves the kernel as it is; deleting a table
    removes it with all of its chains and their rules. *)
Definition apply_msg (k : Kernel) (m : Msg) : Kernel :=
  match m with
  | NewTable t =>
      if bool_decide (t ∈ tables k) then k
      else {| tables := tables k ++ [t]; chains := chains k |}
  | DelTableMsg t =>
      {| tables := filter (λ t', t' ≠ t) (tables k);
         chains := filter (λ e, CTable e.1 ≠ t) (chains k) |}
  end.

Definition apply_batch (k : Kernel) (batch : list Msg) : Kernel :=
  foldl apply_msg k batch.

Definition stage (m : Msg) (c : Conn) : Conn :=
  {| kernel := kernel c; messages := messages c ++ [m];
     clock := clock c; netlink_ok := netlink_ok c |}.

(** [conn.AddTable(tbl)]: queues the request, nothing reaches the kernel. *)
Definition conn_AddTable (t : Table) (c : Conn) : Conn := stage (NewTable t) c.

(** [conn.DelTable(tbl)]: queues the request, nothing reaches the kernel. *)
Definition conn_DelTable (t : Table) (c : Conn) : Conn := stage (DelTableMsg t) c.

(** [conn.Flush()]: one round trip that sends the whole batch.  The batch is
    applied as a unit or not at all, and is emptied either way. *)
Definition conn_Flush (c : Conn) : bool * Conn :=
  let ok := netlink_ok c (clock c) in
  (ok,
   {| kernel := if ok then apply_batch (kernel c) (messages c) else kernel c;
      messages := [];
      clock := S (clock c);
      netlink_ok := netlink_ok c |}).

Definition tick (c : Conn) : Conn :=
  {| kernel := kernel c; messages := messages c;
     clock := S (clock c); netlink_ok := netlink_ok c |}.

(** [conn.ListChains()]: one round trip; every chain of every table. *)
Definition conn_ListChains (c : Conn) : option (list Chain) * Conn :=
  (if netlink_ok c (clock c) then Some ((chains (kernel c)).*1) else None,
   tick c).

Fixpoint chain_rules (ch : Chain) (l : list (Chain * list Rule)) : list Rule :=
  match l with
  | [] => []
  | (ch', rs) :: l' => if bool_decide (ch' = ch) then rs else chain_rules ch l'
  end.

(** [conn.GetRule(t, c)]: one round trip; the rules of chain [c] of table [t]. *)
Definition conn_GetRule (t : Table) (ch : Chain) (c : Conn)
  : option (list Rule) * Conn :=
  (if netlink_ok c (clock c)
   then Some (chain_rules {| ChainName := ChainName ch; CTable := t |}
                          (chains (kernel c)))
   else None,
   tick c).

(** ** Process-wide state *)

Inductive error : Type :=
  | ErrAddingTable (name family : string) (famCode : TableFamily).

Inductive LogEntry : Type :=
  | Warning (msg : string).

(** Modelled from the spec: the type of the registry [sysTables] (with its
    [Add], [Get], [Del] and [List]) is not among the sources; the spec has it
    as "a mapping from (name, family) to FilterTable", keyed here by the
    string [getTableKey] builds, as tables.go uses it. *)
Record State : Type := {
  conn : Conn;
  sysTables : gmap string Table;
  logged : list LogEntry
}.

Definition with_conn (c : Conn) (s : State) : State :=
  {| conn := c; sysTables := sysTables s; logged := logged s |}.

Definition sysTables_Add (key : string) (tbl : Table) (s : State) : State :=
  {| conn := conn s; sysTables := <[key := tbl]> (sysTables s);
     logged := logged s |}.

Definition sysTables_Get (key : string) (s : State) : option Table :=
  sysTables s !! key.

Definition sysTables_Del (key : string) (s : State) : State :=
  {| conn := conn s; sysTables := delete key (sysTables s);
     logged := logged s |}.

Definition log_Warning (msg : string) (s : State) : State :=
  {| conn := conn s; sysTables := sysTables s;
     logged := logged s ++ [Warning msg] |}.

(** Modelled from the spec: [n.Commit()] is not among the sources; the spec
    has [commit()] apply the staged batch atomically and report whether it
    succeeded.  It is the flush of the connection. *)
Definition Commit (s : State) : bool * State :=
  let (ok, c) := conn_Flush (conn s) in (ok, with_conn c s).

(** ** tables.go *)

(** Modelled from the spec: the constants of package exprs are not among the
    sources; the interception tables are the conventional mangle and filter
    tables of the inet family. *)
Definition NFT_CHAIN_MANGLE : string := "mangle".
Definition NFT_CHAIN_FILTER : string := "filter".
Definition NFT_FAMILY_INET : string := "inet".

(** [fmt.Sprint(name, "-", family)]: both call sites pass a string for
    [family], and Sprint puts no space next to a string operand. *)
Definition getTableKey (name family : string) : string :=
  name +:+ "-" +:+ family.

Definition getTable (name family : string) (s : State) : option Table :=
  sysTables_Get (getTableKey name family) s.

Section WithFamilyCodes.
(** [getFamilyCode] is defined in another file of the package; tables.go
    only needs that it maps a family name to a family code. *)
Variable getFamilyCode : string → TableFamily.

(** Returns the pair (handle, error) of the Go function. *)
Definition AddTable (name family : string) (s : State)
  : (option Table * option error) * State :=
  let famCode := getFamilyCode family in
  let tbl := {| Family := famCode; Name := name |} in
  let s1 := with_conn (conn_AddTable tbl (conn s)) s in
  let (ok, s2) := Commit s1 in
  if negb ok then
    ((None, Some (ErrAddingTable name family famCode)), s2)
  else
    let key := getTableKey name family in
    ((Some tbl, None), sysTables_Add key tbl s2).

Definition addInterceptionTables (s : State) : option error * State :=
  match AddTable NFT_CHAIN_MANGLE NFT_FAMILY_INET s with
  | ((_, Some err), s1) => (Some err, s1)
  | ((_, None), s1) =>
      match AddTable NFT_CHAIN_FILTER NFT_FAMILY_INET s1 with
      | ((_, Some err), s2) => (Some err, s2)
      | ((_, None), s2) => (None, s2)
      end
  end.

Definition addSystemTables (s : State) : State :=
  let s1 := (AddTable NFT_CHAIN_MANGLE NFT_FAMILY_INET s).2 in
  (AddTable NFT_CHAIN_FILTER NFT_FAMILY_INET s1).2.
End WithFamilyCodes.

(** The test of the [continue] in the loop of [nonSystemRules]:
    [tbl.Name != c.Table.Name && tbl.Family != c.Table.Family]. *)
Definition chain_skipped (tbl : Table) (c : Chain) : bool :=
  bool_decide (Name tbl ≠ Name (CTable c))
  && bool_decide (Family tbl ≠ Family (CTable c)).

(** The loop of [nonSystemRules] over the listed chains, [t] being the
    running total. *)
Fixpoint count_rules (tbl : Table) (cs : list Chain) (t : Z) (c : Conn)
  : Z * Conn :=
  match cs with
  | [] => (t, c)
  | ch :: rest =>
      if chain_skipped tbl ch then count_rules tbl rest t c
      else
        match conn_GetRule (CTable ch) ch c with
        | (None, c') => (-1, c')
        | (Some rules, c') =>
            count_rules tbl rest (int_add t (Z.of_nat (length rules))) c'
        end
  end.

Definition nonSystemRules (tbl : Table) (s : State) : Z * State :=
  match conn_ListChains (conn s) with
  | (None, c') => (-1, with_conn c' s)
  | (Some cs, c') =>
      let (t, c'') := count_rules tbl cs 0 c' in (t, with_conn c'' s)
  end.

(** One turn of the loop of [delSystemTables], for the entry [k], [tbl]. *)
Definition delSystemTables_iter (k : string) (tbl : Table) (s : State) : State :=
  let (cnt, s1) := nonSystemRules tbl s in
  if bool_decide (cnt ≠ 0) then s1
  else
    let s2 := with_conn (conn_DelTable tbl (conn s1)) s1 in
    let (ok, s3) := Commit s2 in
    if negb ok then log_Warning ("error deleting system table: " +:+ k) s3
    else sysTables_Del k s3.

(** The loop over the registry entries in the order [entries].  Go visits the
    entries of a map in an unspecified order; the loop deletes only the key it
    is visiting, so every entry present at the start is visited once. *)
Definition delSystemTables_range (entries : list (string * Table)) (s : State)
  : State :=
  foldl (λ s' e, delSystemTables_iter e.1 e.2 s') s entries.

Definition delSystemTables (s : State) : State :=
  delSystemTables_range (map_to_list (sysTables s)) s.

(** ** What one turn of the teardown loop observes *)

(** The count [nonSystemRules] returns for [tbl] when called in state [s]. *)
Definition count_at (tbl : Table) (s : State) : Z := (nonSystemRules tbl s).1.

(** The state in which the turn for [tbl] calls [Commit]: after the count,
    with the delete of [tbl] queued. *)
Definition delete_staged (tbl : Table) (s : State) : State :=
  let s1 := (nonSystemRules tbl s).2 in
  with_conn (conn_DelTable tbl (conn s1)) s1.

(** Whether that [Commit] succeeds. *)
Definition delete_committed (tbl : Table) (s : State) : bool :=
  (Commit (delete_staged tbl s)).1.

(** The state in which [AddTable] calls [Commit], the table being queued,
    and whether that [Commit] succeeds. *)
Definition add_staged (tbl : Table) (s : State) : State :=
  with_conn (conn_AddTable tbl (conn s)) s.

Definition add_committed (tbl : Table) (s : State) : bool :=
  (Commit (add_staged tbl s)).1.

(** A connection that was only read from: same kernel, same batch, same
    environment, later clock. *)
Definition only_read (c c' : Conn) : Prop :=
  kernel c' = kernel c ∧ messages c' = messages c
  ∧ netlink_ok c' = netlink_ok c ∧ (clock c ≤ clock c')%nat.

(** ** The count as the spec words it *)

(** The number of rules in the chains of exactly the table [tbl] (same name
    and same family) that the daemon did not install. *)
Definition foreign_rules_under (tbl : Table) (k : Kernel) : Z :=
  Z.of_nat (length (filter (λ r, FromDaemon r = false)
    (mjoin ((filter (λ e, CTable e.1 = tbl) (chains k)).*2)))).

(** The total the loop of [nonSystemRules] adds up when no round trip fails:
    the lengths of the rule lists of the chains it does not skip. *)
Definition counted_total (tbl : Table) (k : Kernel) : Z :=
  foldr (λ ch acc,
           if chain_skipped tbl ch then acc
           else Z.of_nat (length (chain_rules ch (chains k))) + acc)
        0 ((chains k).*1).

(** ** Sample hosts *)

(** Family codes as the kernel numbers them (inet 1, ip 2, ip6 10), inet
    being the fallback. *)
Definition sample_getFamilyCode (family : string) : TableFamily :=
  if bool_decide (family = "ip") then 2
  else if bool_decide (family = "ip6") then 10
  else 1.

Definition filter_inet : Table := {| Family := 1; Name := "filter" |}.
Definition mangle_inet : Table := {| Family := 1; Name := "mangle" |}.
Definition filter_ip : Table := {| Family := 2; Name := "filter" |}.
Definition nat_ip6 : Table := {| Family := 10; Name := "nat" |}.

Definition foreign_rule (h : Z) : Rule := {| RuleHandle := h; FromDaemon := false |}.
Definition daemon_rule (h : Z) : Rule := {| RuleHandle := h; FromDaemon := true |}.

Definition host (k : Kernel) (answers : nat → bool)
    (registry : gmap string Table) : State :=
  {| conn := {| kernel := k; messages := []; clock := 0;
                netlink_ok := answers |};
     sysTables := registry; logged := [] |}.

Definition always_ok : nat → bool := λ _, true.

(** The [i]-th round trip fails, every other one succeeds. *)
Definition fails_at (i : nat) : nat → bool := λ j, negb (j =? i)%nat.

Definition no_tables : Kernel := {| tables := []; chains := [] |}.

(** A host without tables and an empty registry: every round trip succeeds,
    the first one fails, the second one fails. *)
Definition fresh_host : State := host no_tables always_ok ∅.
Definition fresh_host_failing : State := host no_tables (fails_at 0) ∅.
Definition fresh_host_failing_later : State := host no_tables (fails_at 1) ∅.

(** Both interception tables, each with one chain that holds no rule. *)
Definition clean_kernel : Kernel :=
  {| tables := [mangle_inet; filter_inet];
     chains := [({| ChainName := "output"; CTable := mangle_inet |}, []);
                ({| ChainName := "input"; CTable := filter_inet |}, [])] |}.

Definition both_registered : gmap string Table :=
  <["mangle-inet" := mangle_inet]> (<["filter-inet" := filter_inet]> ∅).

(** The filter table, whose only chain holds three rules of another firewall. *)
Definition shared_kernel : Kernel :=
  {| tables := [filter_inet];
     chains := [({| ChainName := "input"; CTable := filter_inet |},
                 [foreign_rule 4; foreign_rule 5; foreign_rule 6])] |}.

Definition filter_registered : gmap string Table :=
  <["filter-inet" := filter_inet]> ∅.

(** The same host when listing the chains fails, and when the first listing
    of rules fails. *)
Definition unlistable_host : State := host shared_kernel (fails_at 0) filter_registered.
Definition unreadable_host : State := host shared_kernel (fails_at 1) filter_registered.

Definition clean_host : State := host clean_kernel always_ok both_registered.
(** The clean host when the fourth round trip, the commit of the first
    delete, fails. *)
Definition clean_host_commit_failing : State :=
  host clean_kernel (fails_at 3) both_registered.

Definition shared_host : State := host shared_kernel always_ok filter_registered.

(** The filter table of the inet family with an empty chain, next to a table
    of the same name in the ip family whose chain holds two foreign rules. *)
Definition same_name_kernel : Kernel :=
  {| tables := [filter_inet; filter_ip];
     chains := [({| ChainName := "input"; CTable := filter_inet |}, []);
                ({| ChainName := "input"; CTable := filter_ip |},
                 [foreign_rule 7; foreign_rule 8])] |}.

Definition same_name_host : State := host same_name_kernel always_ok filter_registered.

(** The filter table whose only rule is the daemon's own. *)
Definition own_rule_kernel : Kernel :=
  {| tables := [filter_inet];
     chains := [({| ChainName := "output"; CTable := filter_inet |},
                 [daemon_rule 2])] |}.

Definition own_rule_host : State := host own_rule_kernel always_ok filter_registered.

(** A table that shares neither name nor family with the filter table. *)
Definition unrelated_kernel : Kernel :=
  {| tables := [filter_inet; nat_ip6];
     chains := [({| ChainName := "input"; CTable := filter_inet |}, []);
                ({| ChainName := "prerouting"; CTable := nat_ip6 |},
                 [foreign_rule 9])] |}.

Definition unrelated_host : State := host unrelated_kernel always_ok filter_registered.

(** ** Quantities and conditions used by the properties *)

(** Over a list of chains [cs]: the rules a listing of each of them returns,
    and those among them that the loop of [nonSystemRules] for [tbl] adds. *)
Definition rules_listed (k : Kernel) (cs : list Chain) : Z :=
  foldr (λ ch acc, Z.of_nat (length (chain_rules ch (chains k))) + acc) 0 cs.

Definition rules_counted (tbl : Table) (k : Kernel) (cs : list Chain) : Z :=
  foldr (λ ch acc,
           if chain_skipped tbl ch then acc
           else Z.of_nat (length (chain_rules ch (chains k))) + acc)
        0 cs.

(** The rules a listing of every chain of the kernel returns. *)
Definition listed_rules (k : Kernel) : Z := rules_listed k ((chains k).*1).

(** A state in which teardown runs undisturbed: no round trip fails, nothing
    is queued, and the rules of the kernel fit Go's [int]. *)
Definition steady (s : State) : Prop :=
  (∀ i, netlink_ok (conn s) i = true)
  ∧ messages (conn s) = []
  ∧ listed_rules (kernel (conn s)) < 2 ^ 63.

(** Whether a table name contains the separator that [getTableKey] inserts. *)
Fixpoint has_dash (name : string) : bool :=
  match name with
  | EmptyString => false
  | String c rest => bool_decide (c = "-"%char) || has_dash rest
  end.

(** ** Handles as pointers *)

(** The handle [AddTable] returns is a pointer to the [nftables.Table] the
    call allocates ([&nftables.Table{...}]), and [sysTables] stores that
    pointer.  [State] keeps what the structs hold; [Handles] adds the structs
    themselves, the address of a struct being its place in the order of
    allocation, and the pointer the registry holds under each key. *)
Record Handles : Type := {
  world : State;
  structs : list Table;
  pointers : gmap string nat
}.

Section WithPointers.
Variable getFamilyCode : string → TableFamily.

(** [AddTable] again, line by line, with the allocation of [tbl] and the
    pointer stored by [sysTables.Add]. *)
Definition AddTable_ptr (name family : string) (h : Handles)
  : (option nat * option error) * Handles :=
  let famCode := getFamilyCode family in
  let tbl := length (structs h) in
  let pointee := {| Family := famCode; Name := name |} in
  let allocated := structs h ++ [pointee] in
  let s1 := with_conn (conn_AddTable pointee (conn (world h))) (world h) in
  let (ok, s2) := Commit s1 in
  if negb ok then
    ((None, Some (ErrAddingTable name family famCode)),
     {| world := s2; structs := allocated; pointers := pointers h |})
  else
    let key := getTableKey name family in
    ((Some tbl, None),
     {| world := sysTables_Add key pointee s2; structs := allocated;
        pointers := <[key := tbl]> (pointers h) |}).

Definition getTable_ptr (name family : string) (h : Handles) : option nat :=
  pointers h !! getTableKey name family.
End WithPointers.

(** No struct allocated yet, on the fresh host and on the one whose second
    round trip fails. *)
Definition fresh_handles : Handles :=
  {| world := fresh_host; structs := []; pointers := ∅ |}.

Definition fresh_handles_failing_later : Handles :=
  {| world := fresh_host_failing_later; structs := []; pointers := ∅ |}.

(** ** [getTableKey] on any family *)

(** [getTableKey] declares [family] as [interface{}].  A value passed for it
    is a string, or something else that [fmt] prints in its default format;
    [Sprint] puts no space before it, since the operand before it, "-", is a
    string. *)
Inductive GoValue (Other : Type) : Type :=
  | GoString (s : string)
  | GoOther (v : Other).

Arguments GoString {Other} s.
Arguments GoOther {Other} v.

Section AnyFamily.
Variable Other : Type.
(** The default format of [fmt] for the values that are not strings. *)
Variable Sprint_value : Other → string.

Definition Sprint_operand (x : GoValue Other) : string :=
  match x with
  | GoString s => s
  | GoOther v => Sprint_value v
  end.

Definition getTableKey_any (name : string) (family : GoValue Other) : string :=
  name +:+ "-" +:+ Sprint_operand family.
End AnyFamily.

(** A stand-in for the default format of family codes: 1 prints as "1". *)
Definition sample_Sprint (code : Z) : string :=
  if bool_decide (code = 1) then "1" else "2".

(** * The launcher ui/bin/opensnitch-ui *)

(** Python's [s.split(".")]: the pieces between the dots, empty ones
    included; never the empty list. *)
Fixpoint split_dots (s : string) : list string :=
  match s with
  | EmptyString => [EmptyString]
  | String c rest =>
      if bool_decide (c = "."%char) then EmptyString :: split_dots rest
      else match split_dots rest with
           | piece :: pieces => String c piece :: pieces
           | [] => [String c EmptyString]
           end
  end.

(** Python's [s[n:]]. *)
Fixpoint string_drop (n : nat) (s : string) : string :=
  match n, s with
  | O, _ => s
  | S n', EmptyString => EmptyString
  | S n', String _ rest => string_drop n' rest
  end.

(** [s.startswith("unix://")]. *)
Definition starts_with_unix (s : string) : bool := String.prefix "unix://" s.

(** The exceptions [supported_qt_version] can raise. *)
Inductive py_exn : Type := IndexError | ValueError.

(** What the launcher read from the command line ([args]) and from the
    configuration ([cfg.getSettings]); [None] is Python's [None]. *)
Record Args : Type := {
  socket : string;
  socket_auth : option string;
  tls_cert : option string;
  tls_key : option string
}.

Record Cfg : Type := {
  AUTH_TYPE : option string;
  AUTH_CERT : option string;
  AUTH_CERTKEY : option string
}.

Definition default_socket : string := "unix:///tmp/osui.sock".

Section Launcher.
(** Python's built-in [int] on a string, [None] when it raises. *)
Variable py_int : string → option Z.

(** [os.path.exists(os.path.dirname(p))] and [os.path.abspath(p)]. *)
Variable dir_exists : string → bool.
Variable abspath : string → string.

(** [auth.Simple] and [auth.get_tls_credentials] of module opensnitch.auth,
    which is not among the sources. *)
Variable auth_Simple : string.
Variable Creds : Type.
Variable get_tls_credentials : option string → option string → option Creds.

(** [int(q[i])]. *)
Definition int_at (q : list string) (i : nat) : py_exn + Z :=
  match q !! i with
  | None => inl IndexError
  | Some piece =>
      match py_int piece with
      | None => inl ValueError
      | Some z => inr z
      end
  end.

(** [supported_qt_version(major, medium, minor)], the version string being
    [QtCore.QT_VERSION_STR].  [and] evaluates its right operand only when
    the left one is true. *)
Definition supported_qt_version (QT_VERSION_STR : string)
    (major medium minor : Z) : py_exn + bool :=
  let q := split_dots QT_VERSION_STR in
  match int_at q 0 with
  | inl e => inl e
  | inr a =>
      if negb (major <=? a) then inr false
      else
        match int_at q 1 with
        | inl e => inl e
        | inr b =>
            if negb (medium <=? b) then inr false
            else
              match int_at q 2 with
              | inl e => inl e
              | inr c => inr (minor <=? c)
              end
        end
  end.

(** The choice of [args.socket] when the launcher starts: [cli] is the value
    of [--socket], [addr] the configured default server address.  Returns the
    address and the lines printed on the way. *)
Definition choose_socket (cli addr : option string) : string * list string :=
  match cli with
  | Some given => (given, [])
  | None =>
      match addr with
      | None => (default_socket, [])
      | Some a =>
          if bool_decide (a = "") then (default_socket, [])
          else if starts_with_unix a then
            if negb (dir_exists (string_drop 7 a)) then
              (default_socket,
               ["WARNING: unix socket path does not exist, using unix:///tmp/osui.sock,  "
                  +:+ a])
            else (a, [])
          else (a, [])
      end
  end.

(** How the launcher opens the port of the gRPC server. *)
Inductive PortAction : Type :=
  | add_insecure_port (address : string)
  | add_secure_port (address : string) (creds : Creds)
  | raise_Exception (msg : string).

Definition or_else (a b : option string) : option string :=
  match a with
  | Some _ => a
  | None => b
  end.

Definition chosen_auth_type (args : Args) (cfg : Cfg) : string :=
  match socket_auth args with
  | Some a => a
  | None =>
      match AUTH_TYPE cfg with
      | Some a => a
      | None => auth_Simple
      end
  end.

Definition open_port (args : Args) (cfg : Cfg) : PortAction :=
  if starts_with_unix (socket args) then
    add_insecure_port ("unix:" +:+ abspath (string_drop 7 (socket args)))
  else
    let auth_type := chosen_auth_type args cfg in
    if bool_decide (auth_type = auth_Simple) || bool_decide (auth_type = "")
    then add_insecure_port (socket args)
    else
      let auth_cert := or_else (tls_cert args) (AUTH_CERT cfg) in
      let auth_certkey := or_else (tls_key args) (AUTH_CERTKEY cfg) in
      match get_tls_credentials auth_cert auth_certkey with
      | None =>
          raise_Exception
            "Invalid TLS credentials. Review the server key and cert files."
      | Some tls_creds => add_secure_port (socket args) tls_creds
      end.
End Launcher.

(** Sample stand-ins for the launcher's surroundings: decimal digits for
    [int], every directory present, paths already absolute. *)
Fixpoint digits_value (acc : Z) (s : string) : option Z :=
  match s with
  | EmptyString => Some acc
  | String c rest =>
      let n := Z.of_nat (nat_of_ascii c) in
      if (48 <=? n) && (n <=? 57) then digits_value (10 * acc + (n - 48)) rest
      else None
  end.

Definition sample_int (s : string) : option Z :=
  match s with
  | EmptyString => None
  | _ => digits_value 0 s
  end.

Definition sample_tls (cert key : option string) : option (string * string) :=
  match cert, key with
  | Some c, Some k => Some (c, k)
  | _, _ => None
  end.

(** * Properties *)

(** ** The connection and the kernel *)

Lemma only_read_refl (c : Conn) : only_read c c.
Proof. by repeat split. Qed.

Lemma only_read_tick (c : Conn) : only_read c (tick c).
Proof. repeat split; simpl; lia. Qed.

Lemma only_read_trans (c1 c2 c3 : Conn) :
  only_read c1 c2 → only_read c2 c3 → only_read c1 c3.
Proof.
  intros (Hk & Hm & Ho & Hc) (Hk' & Hm' & Ho' & Hc').
  repeat split; try congruence. lia.
Qed.

Lemma apply_batch_snoc (k : Kernel) (b : list Msg) (m : Msg) :
  apply_batch k (b ++ [m]) = apply_msg (apply_batch k b) m.
Proof. unfold apply_batch. by rewrite foldl_app. Qed.

Lemma deleted_table_absent (k : Kernel) (t : Table) :
  t ∉ tables (apply_msg k (DelTableMsg t)).
Proof. simpl. rewrite list_elem_of_filter. tauto. Qed.

Lemma new_table_present (k : Kernel) (t : Table) :
  t ∈ tables (apply_msg k (NewTable t)).
Proof.
  simpl. case_bool_decide; [done |]. simpl. apply elem_of_app. right.
  by apply list_elem_of_singleton.
Qed.

Lemma new_table_existing (k : Kernel) (t : Table) :
  t ∈ tables k → apply_msg k (NewTable t) = k.
Proof. intros Hin. simpl. by rewrite bool_decide_eq_true_2. Qed.

Lemma new_table_keeps (k : Kernel) (t t' : Table) :
  t' ∈ tables k → t' ∈ tables (apply_msg k (NewTable t)).
Proof.
  intros Hin. simpl. case_bool_decide; [done |]. simpl.
  apply elem_of_app. by left.
Qed.

(** ** [Commit] *)

Lemma Commit_result (s : State) :
  (Commit s).1 = netlink_ok (conn s) (clock (conn s)).
Proof. reflexivity. Qed.

Lemma Commit_failed_kernel (s : State) :
  (Commit s).1 = false → kernel (conn (Commit s).2) = kernel (conn s).
Proof. rewrite Commit_result. simpl. by intros ->. Qed.

Lemma Commit_succeeded_kernel (s : State) :
  (Commit s).1 = true →
  kernel (conn (Commit s).2) = apply_batch (kernel (conn s)) (messages (conn s)).
Proof. rewrite Commit_result. simpl. by intros ->. Qed.

(** ** [nonSystemRules] only reads *)

Lemma count_rules_only_read (tbl : Table) (cs : list Chain) (t : Z) (c : Conn) :
  only_read c (count_rules tbl cs t c).2.
Proof.
  revert t c. induction cs as [| ch rest IH]; intros t c; simpl.
  - apply only_read_refl.
  - destruct (chain_skipped tbl ch); [apply IH |].
    unfold conn_GetRule. destruct (netlink_ok c (clock c)).
    + eapply only_read_trans; [apply only_read_tick | apply IH].
    + apply only_read_tick.
Qed.

Lemma nonSystemRules_frame (tbl : Table) (s : State) :
  only_read (conn s) (conn (nonSystemRules tbl s).2)
  ∧ sysTables (nonSystemRules tbl s).2 = sysTables s
  ∧ logged (nonSystemRules tbl s).2 = logged s.
Proof.
  unfold nonSystemRules, conn_ListChains.
  destruct (netlink_ok (conn s) (clock (conn s))).
  - pose proof (count_rules_only_read tbl ((chains (kernel (conn s))).*1) 0
                  (tick (conn s))) as Hr.
    destruct (count_rules tbl _ 0 (tick (conn s))) as [t c'']. simpl in *.
    split; [| done]. eapply only_read_trans; [apply only_read_tick | done].
  - simpl. split; [apply only_read_tick | done].
Qed.

(** ** One turn of the teardown loop *)

Lemma delSystemTables_iter_unfold (k : string) (tbl : Table) (s : State) :
  delSystemTables_iter k tbl s =
    if bool_decide (count_at tbl s ≠ 0) then (nonSystemRules tbl s).2
    else if delete_committed tbl s
         then sysTables_Del k (Commit (delete_staged tbl s)).2
         else log_Warning ("error deleting system table: " +:+ k)
                (Commit (delete_staged tbl s)).2.
Proof.
  unfold delSystemTables_iter, delete_committed, delete_staged, count_at.
  destruct (nonSystemRules tbl s) as [cnt s1]. simpl.
  case_bool_decide; [done |].
  by destruct (netlink_ok (conn s1) (clock (conn s1))).
Qed.

Lemma delete_staged_frame (tbl : Table) (s : State) :
  kernel (conn (delete_staged tbl s)) = kernel (conn s)
  ∧ messages (conn (delete_staged tbl s)) = messages (conn s) ++ [DelTableMsg tbl]
  ∧ sysTables (delete_staged tbl s) = sysTables s
  ∧ logged (delete_staged tbl s) = logged s.
Proof.
  destruct (nonSystemRules_frame tbl s) as ((Hk & Hm & _ & _) & Hr & Hl).
  unfold delete_staged. simpl. by rewrite Hk, Hm, Hr, Hl.
Qed.

(** A turn whose count is not 0 changes nothing but the clock. *)
Lemma iter_nonzero (k : string) (tbl : Table) (s : State) :
  count_at tbl s ≠ 0 →
  only_read (conn s) (conn (delSystemTables_iter k tbl s))
  ∧ sysTables (delSystemTables_iter k tbl s) = sysTables s
  ∧ logged (delSystemTables_iter k tbl s) = logged s.
Proof.
  intros Hc. rewrite delSystemTables_iter_unfold.
  rewrite bool_decide_eq_true_2 by done. apply nonSystemRules_frame.
Qed.

(** A turn whose count is 0 and whose commit succeeds. *)
Lemma iter_deleted (k : string) (tbl : Table) (s : State) :
  count_at tbl s = 0 → delete_committed tbl s = true →
  kernel (conn (delSystemTables_iter k tbl s)) =
    apply_batch (kernel (conn s)) (messages (conn s) ++ [DelTableMsg tbl])
  ∧ messages (conn (delSystemTables_iter k tbl s)) = []
  ∧ sysTables (delSystemTables_iter k tbl s) = delete k (sysTables s)
  ∧ logged (delSystemTables_iter k tbl s) = logged s.
Proof.
  intros Hc Hok. rewrite delSystemTables_iter_unfold.
  rewrite bool_decide_eq_false_2 by (intros H; by apply H).
  rewrite Hok. destruct (delete_staged_frame tbl s) as (Hk & Hm & Hr & Hl).
  unfold delete_committed in Hok.
  pose proof (Commit_succeeded_kernel _ Hok) as Hker.
  simpl in *. rewrite Hker, Hk, Hm, Hr, Hl. done.
Qed.

(** A turn whose count is 0 and whose commit fails. *)
Lemma iter_commit_failed (k : string) (tbl : Table) (s : State) :
  count_at tbl s = 0 → delete_committed tbl s = false →
  kernel (conn (delSystemTables_iter k tbl s)) = kernel (conn s)
  ∧ messages (conn (delSystemTables_iter k tbl s)) = []
  ∧ sysTables (delSystemTables_iter k tbl s) = sysTables s
  ∧ logged (delSystemTables_iter k tbl s) =
      logged s ++ [Warning ("error deleting system table: " +:+ k)].
Proof.
  intros Hc Hok. rewrite delSystemTables_iter_unfold.
  rewrite bool_decide_eq_false_2 by (intros H; by apply H).
  rewrite Hok. destruct (delete_staged_frame tbl s) as (Hk & Hm & Hr & Hl).
  unfold delete_committed in Hok.
  pose proof (Commit_failed_kernel _ Hok) as Hker.
  simpl in *. rewrite Hker, Hk, Hr, Hl. done.
Qed.

(** The three ways a turn can go, with what each leaves behind. *)
Ltac iter_cases k tbl s :=
  let Hc := fresh "Hcount" in
  let Hok := fresh "Hcommit" in
  let Hk := fresh "Hkernel" in
  let Hm := fresh "Hbatch" in
  let Hr := fresh "Hreg" in
  let Hl := fresh "Hlog" in
  destruct (decide (count_at tbl s = 0)) as [Hc | Hc];
  [ destruct (delete_committed tbl s) eqn:Hok;
    [ destruct (iter_deleted k tbl s Hc Hok) as (Hk & Hm & Hr & Hl)
    | destruct (iter_commit_failed k tbl s Hc Hok) as (Hk & Hm & Hr & Hl) ]
  | destruct (iter_nonzero k tbl s Hc) as ((Hk & Hm & _ & _) & Hr & Hl) ].

Lemma iter_batch_empty (k : string) (tbl : Table) (s : State) :
  messages (conn s) = [] → messages (conn (delSystemTables_iter k tbl s)) = [].
Proof. intros He. iter_cases k tbl s; congruence. Qed.

(** With nothing queued beforehand, a turn takes a table out of the kernel
    only if it is the turn's own table, counted 0, and the commit succeeded. *)
Lemma iter_table_removed (k : string) (tbl t : Table) (s : State) :
  messages (conn s) = [] →
  t ∈ tables (kernel (conn s)) →
  t ∉ tables (kernel (conn (delSystemTables_iter k tbl s))) →
  t = tbl ∧ count_at tbl s = 0 ∧ delete_committed tbl s = true.
Proof.
  intros He Hin Hout. iter_cases k tbl s.
  - rewrite Hkernel, He in Hout. simpl in Hout.
    destruct (decide (t = tbl)) as [-> | Hne]; [done |].
    exfalso. apply Hout. apply list_elem_of_filter. done.
  - rewrite Hkernel in Hout. done.
  - rewrite Hkernel in Hout. done.
Qed.

Lemma iter_registry_other (k k' : string) (tbl : Table) (s : State) :
  k' ≠ k → sysTables (delSystemTables_iter k tbl s) !! k' = sysTables s !! k'.
Proof.
  intros Hne. iter_cases k tbl s; rewrite Hreg; [| done | done].
  by apply lookup_delete_ne.
Qed.

Lemma iter_log_grows (k : string) (tbl : Table) (s : State) :
  logged s `prefix_of` logged (delSystemTables_iter k tbl s).
Proof.
  iter_cases k tbl s; rewrite Hlog; [done | | done].
  by apply prefix_app_r.
Qed.

(** ** The whole loop *)

Lemma range_cons (k : string) (tbl : Table) (rest : list (string * Table))
    (s : State) :
  delSystemTables_range ((k, tbl) :: rest) s =
    delSystemTables_range rest (delSystemTables_iter k tbl s).
Proof. reflexivity. Qed.

Lemma range_app (pre post : list (string * Table)) (s : State) :
  delSystemTables_range (pre ++ post) s =
    delSystemTables_range post (delSystemTables_range pre s).
Proof. unfold delSystemTables_range. by rewrite foldl_app. Qed.

Lemma range_batch_empty (entries : list (string * Table)) (s : State) :
  messages (conn s) = [] → messages (conn (delSystemTables_range entries s)) = [].
Proof.
  revert s. induction entries as [| [k tbl] rest IH]; intros s He; [done |].
  rewrite range_cons. apply IH. by apply iter_batch_empty.
Qed.

(** A table that the loop took out of the kernel was visited in a turn that
    counted 0 for it and whose commit succeeded. *)
Lemma range_table_removed (entries : list (string * Table)) (t : Table)
    (s : State) :
  messages (conn s) = [] →
  t ∈ tables (kernel (conn s)) →
  t ∉ tables (kernel (conn (delSystemTables_range entries s))) →
  ∃ pre k post,
    entries = pre ++ (k, t) :: post
    ∧ count_at t (delSystemTables_range pre s) = 0
    ∧ delete_committed t (delSystemTables_range pre s) = true.
Proof.
  revert s. induction entries as [| [k tbl] rest IH]; intros s He Hin Hout.
  - done.
  - rewrite range_cons in Hout.
    destruct (decide (t ∈ tables (kernel (conn (delSystemTables_iter k tbl s)))))
      as [Hstill | Hgone].
    + destruct (IH _ (iter_batch_empty k tbl s He) Hstill Hout)
        as (pre & k' & post & -> & Hc & Hok).
      exists ((k, tbl) :: pre), k', post. by rewrite !range_cons.
    + destruct (iter_table_removed k tbl t s He Hin Hgone) as (-> & Hc & Hok).
      by exists [], k, rest.
Qed.

Lemma range_registry_other (entries : list (string * Table)) (k : string)
    (s : State) :
  k ∉ entries.*1 →
  sysTables (delSystemTables_range entries s) !! k = sysTables s !! k.
Proof.
  revert s. induction entries as [| [k' tbl] rest IH]; intros s Hk; [done |].
  rewrite range_cons. simpl in Hk. apply not_elem_of_cons in Hk as [Hne Hk].
  rewrite IH by done. by apply iter_registry_other.
Qed.

Lemma range_log_grows (entries : list (string * Table)) (s : State) :
  logged s `prefix_of` logged (delSystemTables_range entries s).
Proof.
  revert s. induction entries as [| [k tbl] rest IH]; intros s; [done |].
  rewrite range_cons. etrans; [apply iter_log_grows | apply IH].
Qed.

(** Every visiting order of a registry visits each key once. *)
Lemma visiting_order_keys (m : gmap string Table)
    (entries pre post : list (string * Table)) (k : string) (tbl : Table) :
  entries ≡ₚ map_to_list m →
  entries = pre ++ (k, tbl) :: post →
  m !! k = Some tbl ∧ (k ∉ pre.*1) ∧ (k ∉ post.*1).
Proof.
  intros Hperm ->. split.
  - apply elem_of_map_to_list. rewrite <- Hperm.
    apply elem_of_app. right. apply list_elem_of_here.
  - assert (NoDup ((pre ++ (k, tbl) :: post).*1)) as Hnd.
    { rewrite Hperm. apply NoDup_fst_map_to_list. }
    rewrite fmap_app, fmap_cons in Hnd. simpl in Hnd.
    apply NoDup_app in Hnd as (_ & Hpre & Hpost).
    apply NoDup_cons in Hpost as [Hpost _]. split; [| done].
    intros Hin. apply (Hpre _ Hin). apply list_elem_of_here.
Qed.

(** In a visiting order of the registry, the turn for an entry finds the
    entry in place, decides alone whether its key stays, and what it logs
    stays logged. *)
Lemma visited_entry (entries pre post : list (string * Table)) (k : string)
    (tbl : Table) (s : State) :
  entries ≡ₚ map_to_list (sysTables s) →
  entries = pre ++ (k, tbl) :: post →
  sysTables (delSystemTables_range pre s) !! k = Some tbl
  ∧ sysTables (delSystemTables_range entries s) !! k
    = sysTables (delSystemTables_iter k tbl (delSystemTables_range pre s)) !! k
  ∧ logged (delSystemTables_iter k tbl (delSystemTables_range pre s))
      `prefix_of` logged (delSystemTables_range entries s).
Proof.
  intros Hperm Heq.
  destruct (visiting_order_keys _ _ _ _ _ _ Hperm Heq) as (Hin & Hpre & Hpost).
  subst entries. rewrite range_app, range_cons. split; [| split].
  - by rewrite range_registry_other.
  - by rewrite range_registry_other.
  - apply range_log_grows.
Qed.


(** ** Teardown deletes a table only on a count of 0 *)

Lemma iter_keeps_absent (k : string) (tbl t : Table) (s : State) :
  messages (conn s) = [] →
  t ∉ tables (kernel (conn s)) →
  t ∉ tables (kernel (conn (delSystemTables_iter k tbl s))).
Proof.
  intros He Hout. iter_cases k tbl s; rewrite Hkernel; [| done | done].
  rewrite He. simpl. rewrite list_elem_of_filter. tauto.
Qed.

(** A table that is not in the kernel is not brought back by the loop. *)
Lemma range_keeps_absent (entries : list (string * Table)) (t : Table)
    (s : State) :
  messages (conn s) = [] →
  t ∉ tables (kernel (conn s)) →
  t ∉ tables (kernel (conn (delSystemTables_range entries s))).
Proof.
  revert s. induction entries as [| [k tbl] rest IH]; intros s He Hout;
    [done |].
  rewrite range_cons. apply IH.
  - by apply iter_batch_empty.
  - by apply iter_keeps_absent.
Qed.

(** C1.  In every state, the turn of [delSystemTables] for an entry whose
    count ([nonSystemRules]) is not 0, -1 included, queues no delete and
    leaves kernel and registry as they were; when the count is 0 and the
    commit of the delete succeeds, the table is gone from the kernel and its
    key from the registry.  Over the whole loop, with nothing queued at the
    start, a table that was in the kernel before and is not after was
    visited in a turn that counted exactly 0 for it and committed.  And for
    every visiting order of the registry and every entry in it: if its turn
    counts 0 and commits, then at the end of the loop the table is not in
    the kernel and the key is not in the registry; if its turn counts
    anything else, the entry is still registered at the end.  The same holds
    of [delSystemTables] itself, in the order in which it visits. *)
Theorem delSystemTables_deletes_only_on_zero_count :
  (∀ (k : string) (tbl : Table) (s : State),
     count_at tbl s ≠ 0 →
     messages (conn (delSystemTables_iter k tbl s)) = messages (conn s)
     ∧ kernel (conn (delSystemTables_iter k tbl s)) = kernel (conn s)
     ∧ sysTables (delSystemTables_iter k tbl s) = sysTables s)
  ∧ (∀ (k : string) (tbl : Table) (s : State),
       count_at tbl s = 0 → delete_committed tbl s = true →
       (tbl ∉ tables (kernel (conn (delSystemTables_iter k tbl s))))
       ∧ sysTables (delSystemTables_iter k tbl s) !! k = None)
  ∧ (∀ (entries : list (string * Table)) (s : State) (t : Table),
       messages (conn s) = [] →
       t ∈ tables (kernel (conn s)) →
       t ∉ tables (kernel (conn (delSystemTables_range entries s))) →
       ∃ pre k post,
         entries = pre ++ (k, t) :: post
         ∧ count_at t (delSystemTables_range pre s) = 0
         ∧ delete_committed t (delSystemTables_range pre s) = true)
  ∧ (∀ (entries pre post : list (string * Table)) (k : string) (tbl : Table)
       (s : State),
       entries ≡ₚ map_to_list (sysTables s) →
       entries = pre ++ (k, tbl) :: post →
       (count_at tbl (delSystemTables_range pre s) = 0 →
        delete_committed tbl (delSystemTables_range pre s) = true →
        (tbl ∉ tables (kernel (conn (delSystemTables_range entries s))))
        ∧ sysTables (delSystemTables_range entries s) !! k = None)
       ∧ (count_at tbl (delSystemTables_range pre s) ≠ 0 →
          sysTables (delSystemTables_range entries s) !! k = Some tbl))
  ∧ (∀ (pre post : list (string * Table)) (k : string) (tbl : Table)
       (s : State),
       map_to_list (sysTables s) = pre ++ (k, tbl) :: post →
       (count_at tbl (delSystemTables_range pre s) = 0 →
        delete_committed tbl (delSystemTables_range pre s) = true →
        (tbl ∉ tables (kernel (conn (delSystemTables s))))
        ∧ sysTables (delSystemTables s) !! k = None)
       ∧ (count_at tbl (delSystemTables_range pre s) ≠ 0 →
          sysTables (delSystemTables s) !! k = Some tbl)).
Proof.
  assert (∀ (entries pre post : list (string * Table)) (k : string)
            (tbl : Table) (s : State),
            entries ≡ₚ map_to_list (sysTables s) →
            entries = pre ++ (k, tbl) :: post →
            (count_at tbl (delSystemTables_range pre s) = 0 →
             delete_committed tbl (delSystemTables_range pre s) = true →
             (tbl ∉ tables (kernel (conn (delSystemTables_range entries s))))
             ∧ sysTables (delSystemTables_range entries s) !! k = None)
            ∧ (count_at tbl (delSystemTables_range pre s) ≠ 0 →
               sysTables (delSystemTables_range entries s) !! k = Some tbl))
    as Hentry.
  { intros entries pre post k tbl s Hperm Heq.
    destruct (visited_entry entries pre post k tbl s Hperm Heq)
      as (Hthere & Hfate & _).
    split.
    - intros Hc Hok.
      destruct (iter_deleted k tbl _ Hc Hok) as (Hk & Hm & Hr & _).
      split.
      + rewrite Heq, range_app, range_cons.
        apply range_keeps_absent; [exact Hm |].
        rewrite Hk, apply_batch_snoc. apply deleted_table_absent.
      + rewrite Hfate, Hr. apply lookup_delete_eq.
    - intros Hc. destruct (iter_nonzero k tbl _ Hc) as (_ & Hr & _).
      by rewrite Hfate, Hr. }
  split; [| split; [| split; [| split]]].
  - intros k tbl s Hc.
    destruct (iter_nonzero k tbl s Hc) as ((Hk & Hm & _ & _) & Hr & _).
    done.
  - intros k tbl s Hc Hok.
    destruct (iter_deleted k tbl s Hc Hok) as (Hk & _ & Hr & _).
    rewrite Hk, Hr, apply_batch_snoc. split.
    + apply deleted_table_absent.
    + apply lookup_delete_eq.
  - intros entries s t. apply range_table_removed.
  - exact Hentry.
  - intros pre post k tbl s Heq. unfold delSystemTables.
    exact (Hentry (map_to_list (sysTables s)) pre post k tbl s
             (reflexivity _) Heq).
Qed.

(** On a host whose filter table holds three foreign rules the turn queues
    and deletes nothing; on a host where both interception tables are empty
    and every round trip succeeds, the filter table, visited second, is
    counted 0 and is neither in the kernel nor in the registry when the loop
    ends. *)
Lemma delSystemTables_deletes_only_on_zero_count_witness :
  (count_at filter_inet shared_host ≠ 0
   ∧ kernel (conn (delSystemTables_iter "filter-inet" filter_inet shared_host))
     = kernel (conn shared_host))
  ∧ (count_at filter_inet clean_host = 0
     ∧ filter_inet ∉
         tables (kernel (conn (delSystemTables_iter "filter-inet" filter_inet
                                 clean_host))))
  ∧ (∃ pre k post,
       map_to_list both_registered = pre ++ (k, filter_inet) :: post
       ∧ count_at filter_inet (delSystemTables_range pre clean_host) = 0)
  ∧ (count_at filter_inet
       (delSystemTables_range [("mangle-inet", mangle_inet)] clean_host) = 0
     ∧ (filter_inet ∉ tables (kernel (conn (delSystemTables clean_host))))
     ∧ sysTables (delSystemTables clean_host) !! "filter-inet" = None).
Proof.
  destruct delSystemTables_deletes_only_on_zero_count
    as (Hkeep & Hdel & Hloop & _ & Hentry).
  assert (count_at filter_inet shared_host ≠ 0) as Hshared
    by (vm_compute; discriminate).
  assert (count_at filter_inet clean_host = 0) as Hclean
    by (vm_compute; reflexivity).
  assert (delete_committed filter_inet clean_host = true) as Hok
    by (vm_compute; reflexivity).
  split; [| split; [| split]].
  - split; [exact Hshared |].
    destruct (Hkeep "filter-inet"%string filter_inet shared_host Hshared)
      as (_ & Hk & _).
    exact Hk.
  - split; [exact Hclean |].
    destruct (Hdel "filter-inet"%string filter_inet clean_host Hclean Hok)
      as (Hgone & _).
    exact Hgone.
  - assert (messages (conn clean_host) = []) as He by reflexivity.
    assert (filter_inet ∈ tables (kernel (conn clean_host))) as Hin.
    { vm_compute. apply list_elem_of_In. simpl. tauto. }
    assert (filter_inet ∉ tables (kernel (conn (delSystemTables_range
              (map_to_list both_registered) clean_host)))) as Hout.
    { vm_compute. apply not_elem_of_nil. }
    destruct (Hloop (map_to_list both_registered) clean_host filter_inet He Hin Hout)
      as (pre & k & post & Heq & Hc & _).
    exists pre, k, post. split; [exact Heq | exact Hc].
  - assert (count_at filter_inet
              (delSystemTables_range [("mangle-inet", mangle_inet)] clean_host)
            = 0) as Hc2 by (vm_compute; reflexivity).
    assert (delete_committed filter_inet
              (delSystemTables_range [("mangle-inet", mangle_inet)] clean_host)
            = true) as Hok2 by (vm_compute; reflexivity).
    assert (map_to_list (sysTables clean_host)
            = [("mangle-inet", mangle_inet)]
                ++ ("filter-inet", filter_inet) :: []) as Heq
      by (vm_compute; reflexivity).
    split; [exact Hc2 |].
    destruct (Hentry [("mangle-inet", mangle_inet)] [] "filter-inet"
                filter_inet clean_host Heq) as (Hgone & _).
    exact (Hgone Hc2 Hok2).
Defined.

(** ** [nonSystemRules]: failures *)


Lemma count_rules_failure (tbl : Table) (pre : list Chain) (ch : Chain)
    (post : list Chain) (t : Z) (c : Conn) :
  chain_skipped tbl ch = false →
  (conn_GetRule (CTable ch) ch (count_rules tbl pre t c).2).1 = None →
  (count_rules tbl (pre ++ ch :: post) t c).1 = -1.
Proof.
  intros Hskip. revert t c.
  induction pre as [| a pre IH]; intros t c Hfail;
    unfold conn_GetRule in *; simpl in *.
  - rewrite Hskip. by destruct (netlink_ok c (clock c)).
  - destruct (chain_skipped tbl a); [by apply IH |].
    destruct (netlink_ok c (clock c)); [by apply IH | done].
Qed.

(** C2.  [nonSystemRules] returns exactly -1 when listing the chains fails,
    and when listing the rules of a chain it does not skip fails, whatever
    was counted before that chain. *)
Theorem nonSystemRules_propagates_enumeration_failure :
  (∀ (tbl : Table) (s : State),
     (conn_ListChains (conn s)).1 = None → (nonSystemRules tbl s).1 = -1)
  ∧ (∀ (tbl : Table) (s : State) (pre : list Chain) (ch : Chain)
       (post : list Chain),
       (conn_ListChains (conn s)).1 = Some (pre ++ ch :: post) →
       chain_skipped tbl ch = false →
       (conn_GetRule (CTable ch) ch
          (count_rules tbl pre 0 (conn_ListChains (conn s)).2).2).1 = None →
       (nonSystemRules tbl s).1 = -1).
Proof.
  split.
  - intros tbl s Hfail. unfold nonSystemRules.
    destruct (conn_ListChains (conn s)) as [[cs |] c']; [discriminate | done].
  - intros tbl s pre ch post Hlist Hskip Hfail. unfold nonSystemRules.
    destruct (conn_ListChains (conn s)) as [[cs |] c']; [| discriminate].
    cbn [fst snd] in Hlist, Hfail. simplify_eq.
    pose proof (count_rules_failure tbl pre ch post 0 c' Hskip Hfail) as Hr.
    by destruct (count_rules tbl (pre ++ ch :: post) 0 c').
Qed.

(** Listing the chains fails on one host, listing the rules of the filter
    table's chain on the other: the count is -1 on both. *)
Lemma nonSystemRules_propagates_enumeration_failure_witness :
  ((conn_ListChains (conn unlistable_host)).1 = None
   ∧ (nonSystemRules filter_inet unlistable_host).1 = -1)
  ∧ ((conn_ListChains (conn unreadable_host)).1 =
       Some ([] ++ {| ChainName := "input"; CTable := filter_inet |} :: [])
     ∧ (nonSystemRules filter_inet unreadable_host).1 = -1).
Proof.
  destruct nonSystemRules_propagates_enumeration_failure as (Hlist & Hrule).
  split.
  - assert ((conn_ListChains (conn unlistable_host)).1 = None) as Hf
      by (vm_compute; reflexivity).
    split; [exact Hf | exact (Hlist filter_inet unlistable_host Hf)].
  - assert ((conn_ListChains (conn unreadable_host)).1 =
              Some ([] ++ {| ChainName := "input"; CTable := filter_inet |} :: []))
      as Hl by (vm_compute; reflexivity).
    split; [exact Hl |].
    apply (Hrule filter_inet unreadable_host [] _ [] Hl);
      vm_compute; reflexivity.
Defined.

(** ** [nonSystemRules]: which chains are counted *)

Lemma int_wrap_add_l (x y : Z) : int_wrap (int_wrap x + y) = int_wrap (x + y).
Proof.
  unfold int_wrap. f_equal.
  replace ((x + 2 ^ 63) `mod` 2 ^ 64 - 2 ^ 63 + y + 2 ^ 63)
    with ((x + 2 ^ 63) `mod` 2 ^ 64 + y) by lia.
  rewrite Zplus_mod_idemp_l. f_equal. lia.
Qed.

Lemma int_wrap_idemp (x : Z) : int_wrap (int_wrap x) = int_wrap x.
Proof.
  pose proof (int_wrap_add_l x 0) as H. by rewrite !Z.add_0_r in H.
Qed.

Lemma chain_rules_eta (ch : Chain) (l : list (Chain * list Rule)) :
  chain_rules {| ChainName := ChainName ch; CTable := CTable ch |} l
  = chain_rules ch l.
Proof. by destruct ch. Qed.

Lemma chain_skipped_spec (tbl : Table) (ch : Chain) :
  chain_skipped tbl ch = true
  ↔ Name tbl ≠ Name (CTable ch) ∧ Family tbl ≠ Family (CTable ch).
Proof.
  unfold chain_skipped. rewrite andb_true_iff, !bool_decide_eq_true. done.
Qed.

Lemma chain_not_skipped (tbl : Table) (ch : Chain) :
  Name tbl = Name (CTable ch) ∨ Family tbl = Family (CTable ch) →
  chain_skipped tbl ch = false.
Proof.
  intros H. apply not_true_is_false. rewrite chain_skipped_spec. tauto.
Qed.

(** While every round trip succeeds, the loop adds to the running total the
    rules of every chain it does not skip. *)
Lemma count_rules_total (tbl : Table) (k : Kernel) (cs : list Chain) (t : Z)
    (c : Conn) :
  kernel c = k → (∀ i, netlink_ok c i = true) → int_wrap t = t →
  (count_rules tbl cs t c).1 =
    int_wrap (t + foldr (λ ch acc,
                if chain_skipped tbl ch then acc
                else Z.of_nat (length (chain_rules ch (chains k))) + acc) 0 cs).
Proof.
  revert t c. induction cs as [| ch rest IH]; intros t c Hk Hok Ht.
  - simpl. by rewrite Z.add_0_r.
  - simpl. destruct (chain_skipped tbl ch); [by apply IH |].
    unfold conn_GetRule. rewrite Hok, chain_rules_eta, Hk.
    rewrite IH; [| done | done | apply int_wrap_idemp].
    unfold int_add. rewrite int_wrap_add_l. f_equal. lia.
Qed.

Lemma nonSystemRules_total (tbl : Table) (s : State) :
  (∀ i, netlink_ok (conn s) i = true) →
  (nonSystemRules tbl s).1 = int_wrap (counted_total tbl (kernel (conn s))).
Proof.
  intros Hok. unfold nonSystemRules, conn_ListChains. rewrite Hok.
  pose proof (count_rules_total tbl (kernel (conn s))
                ((chains (kernel (conn s))).*1) 0 (tick (conn s))
                eq_refl Hok eq_refl) as Ht.
  destruct (count_rules tbl _ 0 (tick (conn s))) as [t c'']. simpl in *.
  by rewrite Ht.
Qed.

(** C4.  The loop of [nonSystemRules] skips a chain exactly when the name and
    the family of its table both differ from the target's.  A skipped chain
    leaves the running total alone; a chain whose table has the target's name
    or the target's family has the length of its rule list added to it.  So,
    while no round trip fails, the result is the total over all chains that
    share the name or the family. *)
Theorem nonSystemRules_skips_only_when_both_differ :
  (∀ (tbl : Table) (ch : Chain),
     chain_skipped tbl ch = true
     ↔ Name tbl ≠ Name (CTable ch) ∧ Family tbl ≠ Family (CTable ch))
  ∧ (∀ (tbl : Table) (ch : Chain) (rest : list Chain) (t : Z) (c : Conn),
       chain_skipped tbl ch = true →
       count_rules tbl (ch :: rest) t c = count_rules tbl rest t c)
  ∧ (∀ (tbl : Table) (ch : Chain) (rest : list Chain) (t : Z) (c c' : Conn)
       (rules : list Rule),
       Name tbl = Name (CTable ch) ∨ Family tbl = Family (CTable ch) →
       conn_GetRule (CTable ch) ch c = (Some rules, c') →
       count_rules tbl (ch :: rest) t c =
         count_rules tbl rest (int_add t (Z.of_nat (length rules))) c')
  ∧ (∀ (tbl : Table) (s : State),
       (∀ i, netlink_ok (conn s) i = true) →
       (nonSystemRules tbl s).1 = int_wrap (counted_total tbl (kernel (conn s)))).
Proof.
  split; [| split; [| split]].
  - apply chain_skipped_spec.
  - intros tbl ch rest t c Hskip. simpl. by rewrite Hskip.
  - intros tbl ch rest t c c' rules Hshare Hget. cbn [count_rules].
    by rewrite (chain_not_skipped tbl ch Hshare), Hget.
  - apply nonSystemRules_total.
Qed.

(** The chain of the ip-family filter table shares only its name with the
    inet-family filter table; its two rules are counted for the latter.  The
    chain of the ip6-family nat table shares neither and is skipped. *)
Lemma nonSystemRules_skips_only_when_both_differ_witness :
  (Name filter_inet = Name filter_ip ∨ Family filter_inet = Family filter_ip)
  ∧ count_rules filter_inet [{| ChainName := "input"; CTable := filter_ip |}]
      0 (conn same_name_host)
    = count_rules filter_inet []
        (int_add 0 (Z.of_nat (length [foreign_rule 7; foreign_rule 8])))
        (tick (conn same_name_host))
  ∧ (nonSystemRules filter_inet same_name_host).1
    = int_wrap (counted_total filter_inet (kernel (conn same_name_host)))
  ∧ count_rules filter_inet
      [{| ChainName := "prerouting"; CTable := nat_ip6 |}] 0
      (conn unrelated_host)
    = count_rules filter_inet [] 0 (conn unrelated_host).
Proof.
  destruct nonSystemRules_skips_only_when_both_differ
    as (_ & Hskipped & Hcounted & Htotal).
  assert (Name filter_inet = Name filter_ip
          ∨ Family filter_inet = Family filter_ip) as Hshare
    by (left; reflexivity).
  split; [exact Hshare |]. split; [| split].
  - apply (Hcounted filter_inet
             {| ChainName := "input"; CTable := filter_ip |} [] 0
             (conn same_name_host) (tick (conn same_name_host))
             [foreign_rule 7; foreign_rule 8] Hshare).
    vm_compute. reflexivity.
  - apply (Htotal filter_inet same_name_host). intros i. reflexivity.
  - apply (Hskipped filter_inet
             {| ChainName := "prerouting"; CTable := nat_ip6 |} [] 0
             (conn unrelated_host)).
    vm_compute. reflexivity.
Defined.

(** ** What [nonSystemRules] counts against the rules the daemon did not add *)

(** C3.  Where another table shares only the name of the filter table, its
    two rules are counted for the filter table, under which there is no rule
    at all; where the only rule under the filter table is the daemon's own,
    it is counted although no rule there is foreign. *)
Theorem nonSystemRules_counts_beyond_foreign_rules :
  ((nonSystemRules filter_inet same_name_host).1 = 2
   ∧ foreign_rules_under filter_inet (kernel (conn same_name_host)) = 0)
  ∧ ((nonSystemRules filter_inet own_rule_host).1 = 1
     ∧ foreign_rules_under filter_inet (kernel (conn own_rule_host)) = 0).
Proof. repeat split; vm_compute; reflexivity. Qed.

(** ** [AddTable] *)

Section AddTableFacts.
Variable getFamilyCode : string → TableFamily.

Lemma AddTable_unfold (name family : string) (s : State) :
  AddTable getFamilyCode name family s =
    let tbl := {| Family := getFamilyCode family; Name := name |} in
    if add_committed tbl s
    then ((Some tbl, None),
          sysTables_Add (getTableKey name family) tbl
            (Commit (add_staged tbl s)).2)
    else ((None, Some (ErrAddingTable name family (getFamilyCode family))),
          (Commit (add_staged tbl s)).2).
Proof.
  unfold AddTable, add_committed, add_staged. simpl.
  by destruct (netlink_ok (conn s) (clock (conn s))).
Qed.

Lemma AddTable_failed (name family : string) (s : State) :
  add_committed {| Family := getFamilyCode family; Name := name |} s = false →
  (AddTable getFamilyCode name family s).1
    = (None, Some (ErrAddingTable name family (getFamilyCode family)))
  ∧ sysTables (AddTable getFamilyCode name family s).2 = sysTables s
  ∧ kernel (conn (AddTable getFamilyCode name family s).2) = kernel (conn s)
  ∧ messages (conn (AddTable getFamilyCode name family s).2) = [].
Proof.
  intros Hok. rewrite AddTable_unfold. simpl. rewrite Hok.
  unfold add_committed in Hok.
  pose proof (Commit_failed_kernel _ Hok) as Hk. simpl in *.
  by rewrite Hk.
Qed.

Lemma AddTable_succeeded (name family : string) (s : State) :
  add_committed {| Family := getFamilyCode family; Name := name |} s = true →
  (AddTable getFamilyCode name family s).1
    = (Some {| Family := getFamilyCode family; Name := name |}, None)
  ∧ sysTables (AddTable getFamilyCode name family s).2
    = <[getTableKey name family :=
          {| Family := getFamilyCode family; Name := name |}]> (sysTables s)
  ∧ kernel (conn (AddTable getFamilyCode name family s).2)
    = apply_msg (apply_batch (kernel (conn s)) (messages (conn s)))
        (NewTable {| Family := getFamilyCode family; Name := name |})
  ∧ messages (conn (AddTable getFamilyCode name family s).2) = [].
Proof.
  intros Hok. rewrite AddTable_unfold. simpl. rewrite Hok.
  unfold add_committed in Hok.
  pose proof (Commit_succeeded_kernel _ Hok) as Hk. simpl in *.
  by rewrite Hk, apply_batch_snoc.
Qed.

Lemma AddTable_error_iff (name family : string) (s : State) :
  (AddTable getFamilyCode name family s).1.2 = None
  ↔ add_committed {| Family := getFamilyCode family; Name := name |} s = true.
Proof.
  rewrite AddTable_unfold. simpl.
  by destruct (add_committed _ s).
Qed.

(** C9.  When the commit fails, [AddTable] returns no handle and an error,
    and the registry is what it was; when the commit succeeds, it returns
    the handle and no error, and the registry holds the handle under
    [getTableKey name family]. *)
Theorem AddTable_registers_only_after_commit (name family : string)
    (s : State) :
  (add_committed {| Family := getFamilyCode family; Name := name |} s = false →
   (AddTable getFamilyCode name family s).1
     = (None, Some (ErrAddingTable name family (getFamilyCode family)))
   ∧ sysTables (AddTable getFamilyCode name family s).2 = sysTables s)
  ∧ (add_committed {| Family := getFamilyCode family; Name := name |} s = true →
     (AddTable getFamilyCode name family s).1
       = (Some {| Family := getFamilyCode family; Name := name |}, None)
     ∧ sysTables (AddTable getFamilyCode name family s).2
       = <[getTableKey name family :=
             {| Family := getFamilyCode family; Name := name |}]> (sysTables s)
     ∧ getTable name family (AddTable getFamilyCode name family s).2
       = Some {| Family := getFamilyCode family; Name := name |}).
Proof.
  split; intros Hok.
  - destruct (AddTable_failed name family s Hok) as (Hr & Hreg & _). done.
  - destruct (AddTable_succeeded name family s Hok) as (Hr & Hreg & _).
    split; [exact Hr |]. split; [exact Hreg |].
    unfold getTable, sysTables_Get. rewrite Hreg. apply lookup_insert_eq.
Qed.

Lemma AddTable_ptr_result (name family : string) (h : Handles) :
  (AddTable_ptr getFamilyCode name family h).1 =
    if add_committed {| Family := getFamilyCode family; Name := name |} (world h)
    then (Some (length (structs h)), None)
    else (None, Some (ErrAddingTable name family (getFamilyCode family))).
Proof.
  unfold AddTable_ptr, add_committed, add_staged. simpl.
  by destruct (netlink_ok (conn (world h)) (clock (conn (world h)))).
Qed.

Lemma AddTable_ptr_world (name family : string) (h : Handles) :
  world (AddTable_ptr getFamilyCode name family h).2
  = (AddTable getFamilyCode name family (world h)).2.
Proof.
  unfold AddTable_ptr, AddTable. simpl.
  by destruct (netlink_ok (conn (world h)) (clock (conn (world h)))).
Qed.

Lemma AddTable_ptr_structs (name family : string) (h : Handles) :
  structs (AddTable_ptr getFamilyCode name family h).2
  = structs h ++ [{| Family := getFamilyCode family; Name := name |}].
Proof.
  unfold AddTable_ptr. simpl.
  by destruct (netlink_ok (conn (world h)) (clock (conn (world h)))).
Qed.

Lemma AddTable_ptr_pointers (name family : string) (h : Handles) :
  pointers (AddTable_ptr getFamilyCode name family h).2 =
    if add_committed {| Family := getFamilyCode family; Name := name |} (world h)
    then <[getTableKey name family := length (structs h)]> (pointers h)
    else pointers h.
Proof.
  unfold AddTable_ptr, add_committed, add_staged. simpl.
  by destruct (netlink_ok (conn (world h)) (clock (conn (world h)))).
Qed.

Lemma new_table_NoDup (k : Kernel) (t : Table) :
  NoDup (tables k) → NoDup (tables (apply_msg k (NewTable t))).
Proof.
  intros Hnd. simpl. case_bool_decide as Hin; [done |]. simpl.
  apply NoDup_app. split; [done |]. split; [| apply NoDup_singleton].
  intros x Hx Hx'. apply list_elem_of_singleton in Hx'. by subst.
Qed.

Lemma AddTable_tables_NoDup (name family : string) (s : State) :
  messages (conn s) = [] → NoDup (tables (kernel (conn s))) →
  NoDup (tables (kernel (conn (AddTable getFamilyCode name family s).2)))
  ∧ messages (conn (AddTable getFamilyCode name family s).2) = [].
Proof.
  intros He Hnd.
  destruct (add_committed {| Family := getFamilyCode family; Name := name |} s)
    eqn:Hok.
  - destruct (AddTable_succeeded name family s Hok) as (_ & _ & Hk & Hm).
    split; [| done]. rewrite Hk, He. simpl apply_batch.
    by apply new_table_NoDup.
  - destruct (AddTable_failed name family s Hok) as (_ & _ & Hk & Hm).
    split; [| done]. by rewrite Hk.
Qed.

(** C5, amended.  With handles as pointers, [AddTable] does to the state
    what it does without them, and its handle points to the struct it
    returns there.  It returns an error exactly when its commit fails,
    whether or not the table exists.  When the commit of the first call
    succeeds, the call returns a handle to a newly allocated struct holding
    the name and the family code, the registry holds that handle, and the
    table is in the kernel.  When the commit of the second call succeeds
    too, the second call returns another handle, to another struct with the
    same content; the registry now holds the second handle, the contents of
    the registry are as after the first call, and so is the kernel: no second
    table.  When the commit of the second call fails, it returns no handle
    and the error, although the table exists, and kernel and registry stay
    as the first call left them.  Either way a kernel without duplicate
    tables, with nothing queued, has none afterwards. *)
Theorem AddTable_twice (name family : string) (h : Handles) :
  let tbl := {| Family := getFamilyCode family; Name := name |} in
  let first := AddTable_ptr getFamilyCode name family h in
  let second := AddTable_ptr getFamilyCode name family first.2 in
  (world first.2 = (AddTable getFamilyCode name family (world h)).2
   ∧ first.1.2 = (AddTable getFamilyCode name family (world h)).1.2
   ∧ first.1.1 ≫= (λ p, structs first.2 !! p)
     = (AddTable getFamilyCode name family (world h)).1.1)
  ∧ (first.1.2 = None ↔ add_committed tbl (world h) = true)
  ∧ (second.1.2 = None ↔ add_committed tbl (world first.2) = true)
  ∧ (add_committed tbl (world h) = true →
     first.1 = (Some (length (structs h)), None)
     ∧ structs first.2 !! length (structs h) = Some tbl
     ∧ getTable_ptr name family first.2 = Some (length (structs h))
     ∧ tbl ∈ tables (kernel (conn (world first.2)))
     ∧ getTable name family (world first.2) = Some tbl)
  ∧ (add_committed tbl (world h) = true →
     add_committed tbl (world first.2) = true →
     second.1 = (Some (S (length (structs h))), None)
     ∧ second.1 ≠ first.1
     ∧ structs second.2 !! length (structs h) = Some tbl
     ∧ structs second.2 !! S (length (structs h)) = Some tbl
     ∧ getTable_ptr name family second.2 = Some (S (length (structs h)))
     ∧ kernel (conn (world second.2)) = kernel (conn (world first.2))
     ∧ sysTables (world second.2) = sysTables (world first.2))
  ∧ (add_committed tbl (world h) = true →
     add_committed tbl (world first.2) = false →
     second.1 = (None, Some (ErrAddingTable name family (getFamilyCode family)))
     ∧ second.1 ≠ first.1
     ∧ getTable_ptr name family second.2 = Some (length (structs h))
     ∧ kernel (conn (world second.2)) = kernel (conn (world first.2))
     ∧ sysTables (world second.2) = sysTables (world first.2))
  ∧ (messages (conn (world h)) = [] →
     NoDup (tables (kernel (conn (world h)))) →
     NoDup (tables (kernel (conn (world second.2))))).
Proof.
  intros tbl first second.
  pose proof (AddTable_ptr_result name family h) as Hr1.
  pose proof (AddTable_ptr_world name family h) as Hw1.
  pose proof (AddTable_ptr_structs name family h) as Hs1.
  pose proof (AddTable_ptr_pointers name family h) as Hp1.
  pose proof (AddTable_ptr_result name family first.2) as Hr2.
  pose proof (AddTable_ptr_world name family first.2) as Hw2.
  pose proof (AddTable_ptr_structs name family first.2) as Hs2.
  pose proof (AddTable_ptr_pointers name family first.2) as Hp2.
  fold first in Hr1, Hw1, Hs1, Hp1. fold second in Hr2, Hw2, Hs2, Hp2.
  fold tbl in Hr1, Hs1, Hp1, Hr2, Hs2, Hp2.
  assert (length (structs first.2) = S (length (structs h))) as Hlen.
  { rewrite Hs1, length_app. simpl. lia. }
  rewrite Hlen in Hr2, Hp2. rewrite Hs1 in Hs2.
  split; [| split; [| split; [| split; [| split; [| split]]]]].
  - split; [exact Hw1 |]. rewrite Hr1, Hs1, AddTable_unfold. cbv zeta.
    fold tbl. destruct (add_committed tbl (world h)); simpl; [| done].
    split; [done |]. by apply list_lookup_middle.
  - rewrite Hr1. by destruct (add_committed tbl (world h)).
  - rewrite Hr2. by destruct (add_committed tbl (world first.2)).
  - intros Hok. rewrite Hok in Hr1, Hp1.
    destruct (AddTable_succeeded name family (world h) Hok)
      as (_ & Hreg & Hk & _).
    rewrite <- Hw1 in Hreg, Hk. fold tbl in Hreg, Hk.
    split; [exact Hr1 |]. split; [| split; [| split]].
    + rewrite Hs1. by apply list_lookup_middle.
    + unfold getTable_ptr. rewrite Hp1. apply lookup_insert_eq.
    + rewrite Hk. apply new_table_present.
    + unfold getTable, sysTables_Get. rewrite Hreg. apply lookup_insert_eq.
  - intros Hok1 Hok2. rewrite Hok1 in Hr1, Hp1. rewrite Hok2 in Hr2, Hp2.
    destruct (AddTable_succeeded name family (world h) Hok1)
      as (_ & Hreg1 & Hk1 & Hm1).
    destruct (AddTable_succeeded name family (world first.2) Hok2)
      as (_ & Hreg2 & Hk2 & _).
    rewrite <- Hw1 in Hreg1, Hk1, Hm1. rewrite <- Hw2 in Hreg2, Hk2.
    fold tbl in Hreg1, Hk1, Hreg2, Hk2.
    split; [exact Hr2 |]. split; [| split; [| split; [| split; [| split]]]].
    + rewrite Hr2, Hr1. intros Heq. injection Heq. lia.
    + rewrite Hs2, lookup_app_l by (rewrite length_app; simpl; lia).
      by apply list_lookup_middle.
    + rewrite Hs2. apply list_lookup_middle. rewrite length_app. simpl. lia.
    + unfold getTable_ptr. rewrite Hp2. apply lookup_insert_eq.
    + rewrite Hk2, Hm1. simpl apply_batch. apply new_table_existing.
      rewrite Hk1. apply new_table_present.
    + rewrite Hreg2, Hreg1. apply insert_insert_eq.
  - intros Hok1 Hok2. rewrite Hok1 in Hr1, Hp1. rewrite Hok2 in Hr2, Hp2.
    destruct (AddTable_failed name family (world first.2) Hok2)
      as (_ & Hreg2 & Hk2 & _).
    rewrite <- Hw2 in Hreg2, Hk2.
    split; [exact Hr2 |]. split; [by rewrite Hr2, Hr1 |].
    split; [| done].
    unfold getTable_ptr. rewrite Hp2, Hp1. apply lookup_insert_eq.
  - intros He Hnd.
    destruct (AddTable_tables_NoDup name family (world h) He Hnd)
      as [Hnd1 He1].
    rewrite <- Hw1 in Hnd1, He1.
    destruct (AddTable_tables_NoDup name family (world first.2) He1 Hnd1)
      as [Hnd2 _].
    by rewrite <- Hw2 in Hnd2.
Qed.

Lemma addInterceptionTables_unfold (s : State) :
  addInterceptionTables getFamilyCode s =
    match (AddTable getFamilyCode NFT_CHAIN_MANGLE NFT_FAMILY_INET s).1.2 with
    | Some err =>
        (Some err, (AddTable getFamilyCode NFT_CHAIN_MANGLE NFT_FAMILY_INET s).2)
    | None =>
        match (AddTable getFamilyCode NFT_CHAIN_FILTER NFT_FAMILY_INET
                 (AddTable getFamilyCode NFT_CHAIN_MANGLE NFT_FAMILY_INET s).2).1.2
        with
        | Some err =>
            (Some err,
             (AddTable getFamilyCode NFT_CHAIN_FILTER NFT_FAMILY_INET
                (AddTable getFamilyCode NFT_CHAIN_MANGLE NFT_FAMILY_INET s).2).2)
        | None =>
            (None,
             (AddTable getFamilyCode NFT_CHAIN_FILTER NFT_FAMILY_INET
                (AddTable getFamilyCode NFT_CHAIN_MANGLE NFT_FAMILY_INET s).2).2)
        end
    end.
Proof.
  unfold addInterceptionTables.
  destruct (AddTable getFamilyCode NFT_CHAIN_MANGLE NFT_FAMILY_INET s)
    as [[h1 [e1 |]] s1]; simpl; [done |].
  by destruct (AddTable getFamilyCode NFT_CHAIN_FILTER NFT_FAMILY_INET s1)
    as [[h2 [e2 |]] s2].
Qed.

(** C8.  [addInterceptionTables] returns the error of the first [AddTable]
    that fails, at once: after a failure for the mangle table the filter
    table is not attempted.  When it returns no error, the mangle and the
    filter table of the inet family are in the kernel and in the registry. *)
Theorem addInterceptionTables_stops_at_first_error (s : State) :
  let mangle := {| Family := getFamilyCode NFT_FAMILY_INET;
                   Name := NFT_CHAIN_MANGLE |} in
  let filter := {| Family := getFamilyCode NFT_FAMILY_INET;
                   Name := NFT_CHAIN_FILTER |} in
  let first := AddTable getFamilyCode NFT_CHAIN_MANGLE NFT_FAMILY_INET s in
  let second :=
    AddTable getFamilyCode NFT_CHAIN_FILTER NFT_FAMILY_INET first.2 in
  let result := addInterceptionTables getFamilyCode s in
  (∀ err, first.1.2 = Some err → result = (Some err, first.2))
  ∧ (∀ err, first.1.2 = None → second.1.2 = Some err →
       result = (Some err, second.2))
  ∧ (add_committed mangle s = false →
     result.1 = Some (ErrAddingTable NFT_CHAIN_MANGLE NFT_FAMILY_INET
                      (getFamilyCode NFT_FAMILY_INET))
     ∧ clock (conn result.2) = S (clock (conn s)))
  ∧ (add_committed mangle s = true → add_committed filter first.2 = false →
     result.1 = Some (ErrAddingTable NFT_CHAIN_FILTER NFT_FAMILY_INET
                      (getFamilyCode NFT_FAMILY_INET)))
  ∧ (result.1 = None →
     mangle ∈ tables (kernel (conn result.2))
     ∧ filter ∈ tables (kernel (conn result.2))
     ∧ getTable NFT_CHAIN_MANGLE NFT_FAMILY_INET result.2 = Some mangle
     ∧ getTable NFT_CHAIN_FILTER NFT_FAMILY_INET result.2 = Some filter).
Proof.
  intros mangle filter first second result.
  pose proof (addInterceptionTables_unfold s) as Hdone.
  fold first second result in Hdone.
  split; [| split; [| split; [| split]]].
  - intros err He. by rewrite Hdone, He.
  - intros err He1 He2. by rewrite Hdone, He1, He2.
  - intros Hok.
    destruct (AddTable_failed NFT_CHAIN_MANGLE NFT_FAMILY_INET s Hok)
      as (Hr & _). fold first in Hr.
    rewrite Hdone, Hr. simpl. split; [done |].
    unfold first. rewrite AddTable_unfold. simpl. fold mangle. by rewrite Hok.
  - intros Hok1 Hok2.
    destruct (AddTable_succeeded NFT_CHAIN_MANGLE NFT_FAMILY_INET s Hok1)
      as (Hr1 & _). fold first in Hr1.
    destruct (AddTable_failed NFT_CHAIN_FILTER NFT_FAMILY_INET first.2 Hok2)
      as (Hr2 & _). fold second in Hr2.
    by rewrite Hdone, Hr1, Hr2.
  - intros Hnone. rewrite Hdone in Hnone.
    destruct (first.1.2) eqn:He1; [discriminate |].
    destruct (second.1.2) eqn:He2; [discriminate |].
    assert (result.2 = second.2) as -> by (by rewrite Hdone).
    apply AddTable_error_iff in He1, He2.
    destruct (AddTable_succeeded NFT_CHAIN_MANGLE NFT_FAMILY_INET s He1)
      as (_ & Hreg1 & Hk1 & _).
    destruct (AddTable_succeeded NFT_CHAIN_FILTER NFT_FAMILY_INET first.2 He2)
      as (_ & Hreg2 & Hk2 & Hm2).
    fold first in Hreg1, Hk1, Hreg2, Hk2. fold second in Hreg2, Hk2.
    fold mangle in Hreg1, Hk1. fold filter in Hreg2, Hk2.
    assert (messages (conn first.2) = []) as Hm1.
    { unfold first. rewrite AddTable_unfold. simpl.
      by destruct (add_committed _ s). }
    rewrite Hm1 in Hk2. simpl apply_batch in Hk2.
    split; [| split; [| split]].
    + rewrite Hk2. apply new_table_keeps. rewrite Hk1. apply new_table_present.
    + rewrite Hk2. apply new_table_present.
    + unfold getTable, sysTables_Get. rewrite Hreg2, Hreg1.
      rewrite lookup_insert_ne by (by vm_compute).
      apply lookup_insert_eq.
    + unfold getTable, sysTables_Get. rewrite Hreg2. apply lookup_insert_eq.
Qed.

(** C10.  [getTableKey] maps the distinct pairs ("a-b", "c") and
    ("a", "b-c") to the same key.  For any two pairs with the same key,
    once [AddTable] has succeeded for the second, [getTable] answers with the
    second pair's handle for both: the first pair's entry is overwritten. *)
Theorem getTableKey_not_injective :
  (getTableKey "a-b" "c" = getTableKey "a" "b-c"
   ∧ ("a-b", "c") ≠ ("a", "b-c"))
  ∧ (∀ (name1 family1 name2 family2 : string) (s : State),
       let tbl1 := {| Family := getFamilyCode family1; Name := name1 |} in
       let tbl2 := {| Family := getFamilyCode family2; Name := name2 |} in
       let first := AddTable getFamilyCode name1 family1 s in
       let second := AddTable getFamilyCode name2 family2 first.2 in
       getTableKey name1 family1 = getTableKey name2 family2 →
       add_committed tbl1 s = true → add_committed tbl2 first.2 = true →
       getTable name1 family1 first.2 = Some tbl1
       ∧ getTable name1 family1 second.2 = Some tbl2
       ∧ getTable name2 family2 second.2 = Some tbl2).
Proof.
  split; [split; [reflexivity | discriminate] |].
  intros name1 family1 name2 family2 s tbl1 tbl2 first second Hkey Hok1 Hok2.
  destruct (AddTable_succeeded name1 family1 s Hok1) as (_ & Hreg1 & _).
  destruct (AddTable_succeeded name2 family2 first.2 Hok2) as (_ & Hreg2 & _).
  fold first in Hreg1, Hreg2. fold second in Hreg2.
  unfold getTable, sysTables_Get. rewrite Hreg2, Hreg1, Hkey.
  by rewrite !lookup_insert_eq.
Qed.

(** [addSystemTables] is the variant that returns nothing: it goes on to
    the filter table whatever the first [AddTable] returned. *)
Lemma addSystemTables_attempts_both (s : State) :
  clock (conn (addSystemTables getFamilyCode s)) = S (S (clock (conn s))).
Proof.
  unfold addSystemTables. rewrite !AddTable_unfold. simpl.
  repeat match goal with |- context [add_committed ?t ?x] =>
    destruct (add_committed t x) end; reflexivity.
Qed.

End AddTableFacts.

(** On a fresh host whose first round trip fails the registry stays empty;
    when it succeeds the filter table is registered. *)
Lemma AddTable_registers_only_after_commit_witness :
  (add_committed {| Family := sample_getFamilyCode "inet"; Name := "filter" |}
     fresh_host_failing = false
   ∧ sysTables (AddTable sample_getFamilyCode "filter" "inet"
                  fresh_host_failing).2 = sysTables fresh_host_failing)
  ∧ (add_committed {| Family := sample_getFamilyCode "inet"; Name := "filter" |}
       fresh_host = true
     ∧ getTable "filter" "inet"
         (AddTable sample_getFamilyCode "filter" "inet" fresh_host).2
       = Some {| Family := sample_getFamilyCode "inet"; Name := "filter" |}).
Proof.
  destruct (AddTable_registers_only_after_commit sample_getFamilyCode
              "filter" "inet" fresh_host_failing) as (Hfail & _).
  destruct (AddTable_registers_only_after_commit sample_getFamilyCode
              "filter" "inet" fresh_host) as (_ & Hsucc).
  assert (add_committed
            {| Family := sample_getFamilyCode "inet"; Name := "filter" |}
            fresh_host_failing = false) as Hf by (vm_compute; reflexivity).
  assert (add_committed
            {| Family := sample_getFamilyCode "inet"; Name := "filter" |}
            fresh_host = true) as Ht by (vm_compute; reflexivity).
  split.
  - split; [exact Hf |]. exact (proj2 (Hfail Hf)).
  - split; [exact Ht |]. exact (proj2 (proj2 (Hsucc Ht))).
Defined.

(** C5 as the spec has it fails.  On a fresh host whose round trips all
    succeed, the second call returns another handle than the first.  On the
    host whose second round trip fails, the first call puts the filter table
    into the kernel, and the second call, for the table that exists, returns
    no handle and an error. *)
Lemma AddTable_second_call_differs :
  (AddTable_ptr sample_getFamilyCode "filter" "inet"
     (AddTable_ptr sample_getFamilyCode "filter" "inet" fresh_handles).2).1
    ≠ (AddTable_ptr sample_getFamilyCode "filter" "inet" fresh_handles).1
  ∧ (filter_inet
       ∈ tables (kernel (conn (AddTable sample_getFamilyCode "filter" "inet"
                                 fresh_host_failing_later).2))
     ∧ (AddTable sample_getFamilyCode "filter" "inet"
          (AddTable sample_getFamilyCode "filter" "inet"
             fresh_host_failing_later).2).1
       = (None, Some (ErrAddingTable "filter" "inet" 1))
     ∧ (AddTable sample_getFamilyCode "filter" "inet"
          (AddTable sample_getFamilyCode "filter" "inet"
             fresh_host_failing_later).2).1
       ≠ (AddTable sample_getFamilyCode "filter" "inet"
            fresh_host_failing_later).1).
Proof.
  split; [vm_compute; discriminate |].
  split; [vm_compute; apply list_elem_of_here |].
  split; [vm_compute; reflexivity | vm_compute; discriminate].
Qed.

(** Adding the filter table twice: with every round trip succeeding the two
    handles differ and point to structs of the same content; with the second
    round trip failing the second call returns the error. *)
Lemma AddTable_twice_witness :
  add_committed {| Family := sample_getFamilyCode "inet"; Name := "filter" |}
    (world fresh_handles) = true
  ∧ add_committed {| Family := sample_getFamilyCode "inet"; Name := "filter" |}
      (world (AddTable_ptr sample_getFamilyCode "filter" "inet"
                fresh_handles).2) = true
  ∧ (AddTable_ptr sample_getFamilyCode "filter" "inet"
       (AddTable_ptr sample_getFamilyCode "filter" "inet" fresh_handles).2).1
    = (Some (S (length (structs fresh_handles))), None)
  ∧ add_committed {| Family := sample_getFamilyCode "inet"; Name := "filter" |}
      (world (AddTable_ptr sample_getFamilyCode "filter" "inet"
                fresh_handles_failing_later).2) = false
  ∧ (AddTable_ptr sample_getFamilyCode "filter" "inet"
       (AddTable_ptr sample_getFamilyCode "filter" "inet"
          fresh_handles_failing_later).2).1
    = (None, Some (ErrAddingTable "filter" "inet"
                     (sample_getFamilyCode "inet")))
  ∧ NoDup (tables (kernel (conn (world
       (AddTable_ptr sample_getFamilyCode "filter" "inet"
          (AddTable_ptr sample_getFamilyCode "filter" "inet"
             fresh_handles).2).2)))).
Proof.
  assert (add_committed
            {| Family := sample_getFamilyCode "inet"; Name := "filter" |}
            (world fresh_handles) = true) as H1 by (vm_compute; reflexivity).
  assert (add_committed
            {| Family := sample_getFamilyCode "inet"; Name := "filter" |}
            (world (AddTable_ptr sample_getFamilyCode "filter" "inet"
                      fresh_handles).2) = true) as H2
    by (vm_compute; reflexivity).
  assert (add_committed
            {| Family := sample_getFamilyCode "inet"; Name := "filter" |}
            (world fresh_handles_failing_later) = true) as H3
    by (vm_compute; reflexivity).
  assert (add_committed
            {| Family := sample_getFamilyCode "inet"; Name := "filter" |}
            (world (AddTable_ptr sample_getFamilyCode "filter" "inet"
                      fresh_handles_failing_later).2) = false) as H4
    by (vm_compute; reflexivity).
  destruct (AddTable_twice sample_getFamilyCode "filter" "inet" fresh_handles)
    as (_ & _ & _ & _ & Hboth & _ & Hnodup).
  destruct (AddTable_twice sample_getFamilyCode "filter" "inet"
              fresh_handles_failing_later) as (_ & _ & _ & _ & _ & Hfail & _).
  split; [exact H1 |]. split; [exact H2 |].
  split; [exact (proj1 (Hboth H1 H2)) |].
  split; [exact H4 |]. split; [exact (proj1 (Hfail H3 H4)) |].
  apply Hnodup; [reflexivity | apply NoDup_nil_2].
Defined.

(** On a fresh host: with the first round trip failing the error is that of
    the mangle table and one round trip was made; with the second failing
    the error is that of the filter table; with none failing both tables
    are registered. *)
Lemma addInterceptionTables_stops_at_first_error_witness :
  ((addInterceptionTables sample_getFamilyCode fresh_host_failing).1
     = Some (ErrAddingTable NFT_CHAIN_MANGLE NFT_FAMILY_INET
               (sample_getFamilyCode NFT_FAMILY_INET))
   ∧ clock (conn (addInterceptionTables sample_getFamilyCode
                    fresh_host_failing).2)
     = S (clock (conn fresh_host_failing)))
  ∧ (addInterceptionTables sample_getFamilyCode fresh_host_failing_later).1
    = Some (ErrAddingTable NFT_CHAIN_FILTER NFT_FAMILY_INET
              (sample_getFamilyCode NFT_FAMILY_INET))
  ∧ getTable NFT_CHAIN_FILTER NFT_FAMILY_INET
      (addInterceptionTables sample_getFamilyCode fresh_host).2
    = Some {| Family := sample_getFamilyCode NFT_FAMILY_INET;
              Name := NFT_CHAIN_FILTER |}.
Proof.
  split; [| split].
  - destruct (addInterceptionTables_stops_at_first_error sample_getFamilyCode
                fresh_host_failing) as (_ & _ & Hfirst & _).
    apply Hfirst. vm_compute. reflexivity.
  - destruct (addInterceptionTables_stops_at_first_error sample_getFamilyCode
                fresh_host_failing_later) as (_ & _ & _ & Hsecond & _).
    apply Hsecond; vm_compute; reflexivity.
  - destruct (addInterceptionTables_stops_at_first_error sample_getFamilyCode
                fresh_host) as (_ & _ & _ & _ & Hboth).
    refine (proj2 (proj2 (proj2 (Hboth _)))). vm_compute. reflexivity.
Defined.

(** Adding ("a-b", "c") and then ("a", "b-c") on a fresh host: asking for
    the first pair answers with the table named "a". *)
Lemma getTableKey_not_injective_witness :
  getTableKey "a-b" "c" = getTableKey "a" "b-c"
  ∧ getTable "a-b" "c"
      (AddTable sample_getFamilyCode "a" "b-c"
         (AddTable sample_getFamilyCode "a-b" "c" fresh_host).2).2
    = Some {| Family := sample_getFamilyCode "b-c"; Name := "a" |}.
Proof.
  destruct (getTableKey_not_injective sample_getFamilyCode)
    as ((Hkey & _) & Hover).
  split; [exact Hkey |].
  refine (proj1 (proj2 (Hover "a-b" "c" "a" "b-c" fresh_host Hkey _ _)));
    vm_compute; reflexivity.
Defined.

(** ** Teardown: failed commits and tables that are not empty *)

(** C6.  A turn of [delSystemTables] whose count is 0 and whose commit fails
    logs the warning for its key and leaves the registry as it was.  Over the
    whole loop, in any visiting order of the registry: after such a turn the
    entry is still registered at the end and the warning is in the log; and a
    key that is gone at the end was removed by a turn that counted 0 and
    whose commit succeeded. *)
Theorem delSystemTables_keeps_entry_on_failed_commit :
  (∀ (k : string) (tbl : Table) (s : State),
     count_at tbl s = 0 → delete_committed tbl s = false →
     logged (delSystemTables_iter k tbl s)
       = logged s ++ [Warning ("error deleting system table: " +:+ k)]
     ∧ sysTables (delSystemTables_iter k tbl s) = sysTables s)
  ∧ (∀ (entries pre post : list (string * Table)) (k : string) (tbl : Table)
       (s : State),
       entries ≡ₚ map_to_list (sysTables s) →
       entries = pre ++ (k, tbl) :: post →
       (count_at tbl (delSystemTables_range pre s) = 0 →
        delete_committed tbl (delSystemTables_range pre s) = false →
        sysTables (delSystemTables_range entries s) !! k = Some tbl
        ∧ Warning ("error deleting system table: " +:+ k)
            ∈ logged (delSystemTables_range entries s))
       ∧ (sysTables (delSystemTables_range entries s) !! k = None →
          count_at tbl (delSystemTables_range pre s) = 0
          ∧ delete_committed tbl (delSystemTables_range pre s) = true)).
Proof.
  split.
  - intros k tbl s Hc Hok.
    destruct (iter_commit_failed k tbl s Hc Hok) as (_ & _ & Hr & Hl). done.
  - intros entries pre post k tbl s Hperm Heq.
    destruct (visited_entry entries pre post k tbl s Hperm Heq)
      as (Hthere & Hfate & Hlogs).
    set (si := delSystemTables_range pre s) in *. split.
    + intros Hc Hok.
      destruct (iter_commit_failed k tbl si Hc Hok) as (_ & _ & Hr & Hl).
      split; [by rewrite Hfate, Hr |].
      eapply elem_of_prefix; [| exact Hlogs]. rewrite Hl.
      apply elem_of_app. right. apply list_elem_of_here.
    + intros Hgone. rewrite Hfate in Hgone. iter_cases k tbl si.
      * done.
      * rewrite Hreg in Hgone. congruence.
      * rewrite Hreg in Hgone. congruence.
Qed.

(** On the clean host whose first commit fails, the mangle table, visited
    first, keeps its entry and the warning names its key. *)
Lemma delSystemTables_keeps_entry_on_failed_commit_witness :
  count_at mangle_inet clean_host_commit_failing = 0
  ∧ delete_committed mangle_inet clean_host_commit_failing = false
  ∧ sysTables (delSystemTables clean_host_commit_failing) !! "mangle-inet"
    = Some mangle_inet
  ∧ Warning ("error deleting system table: " +:+ "mangle-inet")
      ∈ logged (delSystemTables clean_host_commit_failing).
Proof.
  destruct delSystemTables_keeps_entry_on_failed_commit as (_ & Hloop).
  assert (count_at mangle_inet clean_host_commit_failing = 0) as Hc
    by (vm_compute; reflexivity).
  assert (delete_committed mangle_inet clean_host_commit_failing = false) as Hok
    by (vm_compute; reflexivity).
  split; [exact Hc |]. split; [exact Hok |].
  assert (map_to_list (sysTables clean_host_commit_failing)
          = [] ++ ("mangle-inet", mangle_inet)
               :: [("filter-inet", filter_inet)]) as Heq
    by (vm_compute; reflexivity).
  destruct (Hloop (map_to_list (sysTables clean_host_commit_failing)) []
              [("filter-inet", filter_inet)] "mangle-inet" mangle_inet
              clean_host_commit_failing (reflexivity _) Heq) as (Hkeep & _).
  exact (Hkeep Hc Hok).
Defined.




(** * Further properties of tables.go *)

(** ** [nonSystemRules]: effects and value *)

Lemma count_rules_clock (tbl : Table) (cs : list Chain) (t : Z) (c : Conn) :
  (clock (count_rules tbl cs t c).2 ≤ clock c + length cs)%nat.
Proof.
  revert t c. induction cs as [| ch rest IH]; intros t c; simpl; [lia |].
  destruct (chain_skipped tbl ch).
  - specialize (IH t c). lia.
  - unfold conn_GetRule. destruct (netlink_ok c (clock c)); simpl; [| lia].
    match goal with |- context [count_rules tbl rest ?t' (tick c)] =>
      specialize (IH t' (tick c)) end.
    simpl in IH. lia.
Qed.

(** [nonSystemRules] only reads: it leaves the kernel, the queued batch, the
    registry and the log as they are, and makes at least one round trip and
    at most one more than there are chains in the kernel. *)
Theorem nonSystemRules_reads_only (tbl : Table) (s : State) :
  kernel (conn (nonSystemRules tbl s).2) = kernel (conn s)
  ∧ messages (conn (nonSystemRules tbl s).2) = messages (conn s)
  ∧ sysTables (nonSystemRules tbl s).2 = sysTables s
  ∧ logged (nonSystemRules tbl s).2 = logged s
  ∧ (clock (conn s) < clock (conn (nonSystemRules tbl s).2)
     ≤ clock (conn s) + 1 + length (chains (kernel (conn s))))%nat.
Proof.
  destruct (nonSystemRules_frame tbl s) as ((Hk & Hm & _ & _) & Hr & Hl).
  repeat (split; [done |]).
  unfold nonSystemRules, conn_ListChains.
  destruct (netlink_ok (conn s) (clock (conn s))); simpl; [| lia].
  pose proof (count_rules_clock tbl ((chains (kernel (conn s))).*1) 0
                (tick (conn s))) as Hup.
  destruct (count_rules_only_read tbl ((chains (kernel (conn s))).*1) 0
              (tick (conn s))) as (_ & _ & _ & Hlow).
  destruct (count_rules tbl _ 0 (tick (conn s))) as [t c''].
  rewrite length_fmap in Hup. simpl in *. lia.
Qed.

Lemma int_wrap_small (z : Z) : - 2 ^ 63 ≤ z < 2 ^ 63 → int_wrap z = z.
Proof. intros Hz. unfold int_wrap. rewrite Z.mod_small; lia. Qed.

Lemma rules_counted_bounds (tbl : Table) (k : Kernel) (cs : list Chain) :
  0 ≤ rules_counted tbl k cs ≤ rules_listed k cs.
Proof.
  induction cs as [| ch rest IH]; simpl; [lia |].
  destruct (chain_skipped tbl ch); lia.
Qed.

Lemma counted_total_bounds (tbl : Table) (k : Kernel) :
  0 ≤ counted_total tbl k ≤ listed_rules k.
Proof. apply rules_counted_bounds. Qed.

Lemma count_rules_exact (tbl : Table) (k : Kernel) (cs : list Chain) (t : Z)
    (c : Conn) :
  kernel c = k → 0 ≤ t → t + rules_listed k cs < 2 ^ 63 →
  (count_rules tbl cs t c).1 = -1
  ∨ (count_rules tbl cs t c).1 = t + rules_counted tbl k cs.
Proof.
  revert t c. induction cs as [| ch rest IH]; intros t c Hk Ht Hb; simpl in *.
  - right. lia.
  - pose proof (rules_counted_bounds tbl k rest) as Hrest.
    destruct (chain_skipped tbl ch).
    + apply IH; [done | done | lia].
    + unfold conn_GetRule. destruct (netlink_ok c (clock c)); [| by left].
      rewrite chain_rules_eta, Hk. unfold int_add.
      rewrite int_wrap_small by lia.
      destruct (IH (t + Z.of_nat (length (chain_rules ch (chains k))))
                  (tick c) Hk) as [Hf | Hv]; [lia | lia | by left |].
      right. rewrite Hv. lia.
Qed.

Lemma nonSystemRules_value (tbl : Table) (s : State) :
  listed_rules (kernel (conn s)) < 2 ^ 63 →
  (count_at tbl s = -1 ∨ count_at tbl s = counted_total tbl (kernel (conn s)))
  ∧ 0 ≤ counted_total tbl (kernel (conn s))
  ∧ ((∀ i, netlink_ok (conn s) i = true) →
     count_at tbl s = counted_total tbl (kernel (conn s))).
Proof.
  intros Hb. pose proof (counted_total_bounds tbl (kernel (conn s))) as Hc.
  split; [| split; [lia |]].
  - unfold count_at, nonSystemRules, conn_ListChains.
    destruct (netlink_ok (conn s) (clock (conn s))); [| by left].
    pose proof (count_rules_exact tbl (kernel (conn s))
                  ((chains (kernel (conn s))).*1) 0 (tick (conn s))
                  eq_refl (Z.le_refl 0)) as He.
    destruct (count_rules tbl _ 0 (tick (conn s))) as [t c'']. simpl in *.
    destruct He as [He | He]; [exact Hb | by left | right].
    rewrite He. unfold counted_total, rules_counted. lia.
  - intros Hok. unfold count_at. rewrite nonSystemRules_total by done.
    apply int_wrap_small. lia.
Qed.

(** While the rules of the kernel fit Go's [int], [nonSystemRules] returns
    -1 or the full total over the chains it does not skip, never the total of
    only some of them; and the full total, which is not negative, when no
    round trip fails. *)
Theorem nonSystemRules_exact_or_failed (tbl : Table) (s : State) :
  listed_rules (kernel (conn s)) < 2 ^ 63 →
  (count_at tbl s = -1 ∨ count_at tbl s = counted_total tbl (kernel (conn s)))
  ∧ 0 ≤ counted_total tbl (kernel (conn s))
  ∧ ((∀ i, netlink_ok (conn s) i = true) →
     count_at tbl s = counted_total tbl (kernel (conn s))).
Proof. exact (nonSystemRules_value tbl s). Qed.

Lemma nonSystemRules_exact_or_failed_witness :
  listed_rules (kernel (conn unreadable_host)) < 2 ^ 63
  ∧ (count_at filter_inet unreadable_host = -1
     ∨ count_at filter_inet unreadable_host
       = counted_total filter_inet (kernel (conn unreadable_host))).
Proof.
  assert (listed_rules (kernel (conn unreadable_host)) < 2 ^ 63) as Hb
    by (vm_compute; reflexivity).
  split; [exact Hb |].
  exact (proj1 (nonSystemRules_exact_or_failed filter_inet unreadable_host Hb)).
Defined.

Lemma rules_counted_zero (tbl : Table) (k : Kernel) (cs : list Chain) :
  rules_counted tbl k cs = 0
  ↔ ∀ ch, ch ∈ cs → chain_skipped tbl ch = false →
      chain_rules ch (chains k) = [].
Proof.
  induction cs as [| ch rest IH]; simpl.
  - split; [| done]. intros _ ch Hin. by apply elem_of_nil in Hin.
  - pose proof (rules_counted_bounds tbl k rest) as Hrest.
    destruct (chain_skipped tbl ch) eqn:Hskip.
    + rewrite IH. split.
      * intros H ch' Hin Hs. apply elem_of_cons in Hin as [-> | Hin];
          [congruence | by apply H].
      * intros H ch' Hin. apply H. by apply elem_of_cons; right.
    + split.
      * intros Hsum ch' Hin Hs. apply elem_of_cons in Hin as [-> | Hin].
        -- apply length_zero_iff_nil. lia.
        -- apply IH; [lia | done | done].
      * intros H. rewrite (H ch); [| apply list_elem_of_here | done].
        simpl. apply IH. intros ch' Hin. apply H. by apply elem_of_cons; right.
Qed.

(** When no round trip fails and the rules of the kernel fit Go's [int], the
    count for a table is 0 exactly when every chain whose table shares the
    name or the family with it holds no rule. *)
Theorem nonSystemRules_zero_iff_no_rules (tbl : Table) (s : State) :
  (∀ i, netlink_ok (conn s) i = true) →
  listed_rules (kernel (conn s)) < 2 ^ 63 →
  count_at tbl s = 0
  ↔ ∀ ch, ch ∈ (chains (kernel (conn s))).*1 →
      Name tbl = Name (CTable ch) ∨ Family tbl = Family (CTable ch) →
      chain_rules ch (chains (kernel (conn s))) = [].
Proof.
  intros Hok Hb.
  destruct (nonSystemRules_value tbl s Hb) as (_ & _ & Hv).
  rewrite (Hv Hok). unfold counted_total.
  change (foldr _ 0 ((chains (kernel (conn s))).*1))
    with (rules_counted tbl (kernel (conn s)) ((chains (kernel (conn s))).*1)).
  rewrite rules_counted_zero. split.
  - intros H ch Hin Hshare. apply H; [done |]. by apply chain_not_skipped.
  - intros H ch Hin Hskip. apply H; [done |].
    destruct (decide (Name tbl = Name (CTable ch))) as [| Hn]; [by left |].
    destruct (decide (Family tbl = Family (CTable ch))) as [| Hf]; [by right |].
    exfalso. assert (chain_skipped tbl ch = true) as Ht
      by (by apply chain_skipped_spec).
    congruence.
Qed.

Lemma nonSystemRules_zero_iff_no_rules_witness :
  count_at filter_inet clean_host = 0
  ↔ ∀ ch, ch ∈ (chains (kernel (conn clean_host))).*1 →
      Name filter_inet = Name (CTable ch)
      ∨ Family filter_inet = Family (CTable ch) →
      chain_rules ch (chains (kernel (conn clean_host))) = [].
Proof.
  apply (nonSystemRules_zero_iff_no_rules filter_inet clean_host).
  - intros i. reflexivity.
  - vm_compute. reflexivity.
Defined.

(** ** [delSystemTables]: what it never does *)

Lemma iter_answers (k : string) (tbl : Table) (s : State) :
  netlink_ok (conn (delSystemTables_iter k tbl s)) = netlink_ok (conn s).
Proof.
  rewrite delSystemTables_iter_unfold.
  destruct (nonSystemRules_frame tbl s) as ((_ & _ & Ho & _) & _).
  case_bool_decide; [done |].
  destruct (delete_committed tbl s); simpl; exact Ho.
Qed.

Lemma iter_only_removes (k : string) (tbl : Table) (s : State) :
  messages (conn s) = [] →
  sysTables (delSystemTables_iter k tbl s) ⊆ sysTables s
  ∧ tables (kernel (conn (delSystemTables_iter k tbl s)))
      `sublist_of` tables (kernel (conn s))
  ∧ chains (kernel (conn (delSystemTables_iter k tbl s)))
      `sublist_of` chains (kernel (conn s)).
Proof.
  intros He. iter_cases k tbl s; rewrite Hreg, Hkernel.
  - rewrite He. simpl. split; [apply delete_subseteq |].
    split; apply sublist_filter.
  - done.
  - done.
Qed.

Lemma range_only_removes (entries : list (string * Table))
    (s : State) :
  messages (conn s) = [] →
  sysTables (delSystemTables_range entries s) ⊆ sysTables s
  ∧ tables (kernel (conn (delSystemTables_range entries s)))
      `sublist_of` tables (kernel (conn s))
  ∧ chains (kernel (conn (delSystemTables_range entries s)))
      `sublist_of` chains (kernel (conn s))
  ∧ logged s `prefix_of` logged (delSystemTables_range entries s)
  ∧ messages (conn (delSystemTables_range entries s)) = [].
Proof.
  intros He. split; [| split; [| split; [| split]]];
    [| | | apply range_log_grows | by apply range_batch_empty].
  all: revert s He; induction entries as [| [k tbl] rest IH]; intros s He;
    [done |]; rewrite range_cons;
    destruct (iter_only_removes k tbl s He) as (Hr & Ht & Hc);
    (etrans; [apply IH; by apply iter_batch_empty | done]).
Qed.

(** Teardown only removes: with nothing queued at the start, whatever the
    order of the visit, the registry afterwards is part of the registry
    before, the tables and chains of the kernel are among those it had, in
    the same order, the log is the old log with warnings appended, and
    nothing is left queued. *)
Theorem delSystemTables_only_removes (entries : list (string * Table))
    (s : State) :
  messages (conn s) = [] →
  sysTables (delSystemTables_range entries s) ⊆ sysTables s
  ∧ tables (kernel (conn (delSystemTables_range entries s)))
      `sublist_of` tables (kernel (conn s))
  ∧ chains (kernel (conn (delSystemTables_range entries s)))
      `sublist_of` chains (kernel (conn s))
  ∧ logged s `prefix_of` logged (delSystemTables_range entries s)
  ∧ messages (conn (delSystemTables_range entries s)) = [].
Proof. exact (range_only_removes entries s). Qed.

Lemma delSystemTables_only_removes_witness :
  messages (conn clean_host_commit_failing) = []
  ∧ sysTables (delSystemTables_range
                 (map_to_list (sysTables clean_host_commit_failing))
                 clean_host_commit_failing)
      ⊆ sysTables clean_host_commit_failing.
Proof.
  assert (messages (conn clean_host_commit_failing) = []) as He
    by reflexivity.
  split; [exact He |].
  exact (proj1 (delSystemTables_only_removes
                  (map_to_list (sysTables clean_host_commit_failing))
                  clean_host_commit_failing He)).
Defined.

(** ** [delSystemTables]: the outcome when no round trip fails *)

Lemma chain_rules_filter_other (ch : Chain) (t : Table)
    (l : list (Chain * list Rule)) :
  CTable ch ≠ t →
  chain_rules ch (filter (λ e, CTable e.1 ≠ t) l) = chain_rules ch l.
Proof.
  intros Hne. induction l as [| [ch' rs] l IH]; [done |].
  rewrite filter_cons. simpl. destruct (decide (CTable ch' ≠ t)) as [Hk | Hd].
  - simpl. by rewrite IH.
  - rewrite IH. rewrite bool_decide_eq_false_2; [done |].
    intros ->. by apply Hd.
Qed.

Lemma rules_counted_cons (tbl : Table) (k : Kernel) (ch : Chain)
    (cs : list Chain) :
  rules_counted tbl k (ch :: cs) =
    if chain_skipped tbl ch then rules_counted tbl k cs
    else Z.of_nat (length (chain_rules ch (chains k))) + rules_counted tbl k cs.
Proof. reflexivity. Qed.

Lemma rules_listed_cons (k : Kernel) (ch : Chain) (cs : list Chain) :
  rules_listed k (ch :: cs) =
    Z.of_nat (length (chain_rules ch (chains k))) + rules_listed k cs.
Proof. reflexivity. Qed.

Lemma chains_after_delete (k : Kernel) (t : Table) :
  chains (apply_msg k (DelTableMsg t))
  = filter (λ e, CTable e.1 ≠ t) (chains k).
Proof. reflexivity. Qed.

Lemma rules_after_delete (tbl : Table) (k : Kernel) (t : Table)
    (l : list (Chain * list Rule)) :
  (∀ ch, ch ∈ l.*1 → CTable ch = t → chain_rules ch (chains k) = []) →
  rules_counted tbl (apply_msg k (DelTableMsg t))
      ((filter (λ e, CTable e.1 ≠ t) l).*1)
    = rules_counted tbl k (l.*1)
  ∧ rules_listed (apply_msg k (DelTableMsg t))
        ((filter (λ e, CTable e.1 ≠ t) l).*1)
      = rules_listed k (l.*1).
Proof.
  induction l as [| [ch rs] l IH]; intros Hempty; [done |].
  destruct IH as [IHc IHl].
  { intros ch' Hin. apply Hempty. rewrite fmap_cons. by apply elem_of_cons; right. }
  rewrite filter_cons. cbn [fst]. destruct (decide (CTable ch ≠ t)) as [Hk | Hd].
  - rewrite !fmap_cons. cbn [fst].
    rewrite !rules_counted_cons, !rules_listed_cons, IHc, IHl.
    rewrite chains_after_delete, (chain_rules_filter_other ch t (chains k) Hk).
    done.
  - rewrite IHc, IHl, fmap_cons. cbn [fst].
    rewrite rules_counted_cons, rules_listed_cons, (Hempty ch).
    + simpl length. split; [by destruct (chain_skipped tbl ch) | done].
    + rewrite fmap_cons. apply list_elem_of_here.
    + by destruct (decide (CTable ch = t)) as [| Hn]; [| destruct Hd].
Qed.

(** Deleting a table for which the total is 0 changes no total. *)
Lemma totals_after_delete (tbl t : Table) (k : Kernel) :
  counted_total t k = 0 →
  counted_total tbl (apply_msg k (DelTableMsg t)) = counted_total tbl k
  ∧ listed_rules (apply_msg k (DelTableMsg t)) = listed_rules k.
Proof.
  intros Hz. apply (rules_after_delete tbl k t (chains k)).
  intros ch Hin Ht.
  apply (proj1 (rules_counted_zero t k ((chains k).*1)) Hz ch Hin).
  apply chain_not_skipped. left. by rewrite Ht.
Qed.

Lemma steady_count (tbl : Table) (s : State) :
  steady s → count_at tbl s = counted_total tbl (kernel (conn s)).
Proof.
  intros (Hok & _ & Hb).
  by apply (nonSystemRules_value tbl s Hb).
Qed.

Lemma delete_committed_ok (tbl : Table) (s : State) :
  (∀ i, netlink_ok (conn s) i = true) → delete_committed tbl s = true.
Proof.
  intros Hok. unfold delete_committed. rewrite Commit_result.
  destruct (nonSystemRules_frame tbl s) as ((_ & _ & Ho & _) & _).
  unfold delete_staged. simpl. rewrite Ho. apply Hok.
Qed.

Lemma iter_steady (k : string) (tbl : Table) (s : State) :
  steady s →
  steady (delSystemTables_iter k tbl s)
  ∧ ∀ t, count_at t (delSystemTables_iter k tbl s) = count_at t s.
Proof.
  intros Hs. pose proof Hs as (Hok & He & Hb).
  assert (listed_rules (kernel (conn (delSystemTables_iter k tbl s)))
            = listed_rules (kernel (conn s))
          ∧ ∀ t, counted_total t (kernel (conn (delSystemTables_iter k tbl s)))
                 = counted_total t (kernel (conn s))) as [Hl Ht].
  { iter_cases k tbl s; rewrite Hkernel; [| done | done].
    rewrite He. simpl apply_batch.
    rewrite (steady_count tbl s Hs) in Hcount.
    split; [apply (totals_after_delete tbl tbl _ Hcount) |].
    intros t. apply (totals_after_delete t tbl _ Hcount). }
  assert (steady (delSystemTables_iter k tbl s)) as Hs'.
  { split; [| split].
    - intros i. rewrite iter_answers. apply Hok.
    - by apply iter_batch_empty.
    - by rewrite Hl. }
  split; [exact Hs' |]. intros t.
  by rewrite (steady_count t _ Hs'), (steady_count t _ Hs).
Qed.

Lemma range_steady (entries : list (string * Table)) (s : State) :
  steady s →
  steady (delSystemTables_range entries s)
  ∧ ∀ t, count_at t (delSystemTables_range entries s) = count_at t s.
Proof.
  revert s. induction entries as [| [k tbl] rest IH]; intros s Hs; [done |].
  rewrite range_cons. destruct (iter_steady k tbl s Hs) as [Hs' Hc'].
  destruct (IH _ Hs') as [Hs'' Hc'']. split; [done |].
  intros t. by rewrite Hc'', Hc'.
Qed.

Lemma range_outcome (entries : list (string * Table)) (s : State) :
  steady s →
  entries ≡ₚ map_to_list (sysTables s) →
  sysTables (delSystemTables_range entries s)
    = filter (λ e, count_at e.2 s ≠ 0) (sysTables s)
  ∧ ∀ t, t ∈ tables (kernel (conn (delSystemTables_range entries s)))
         ↔ t ∈ tables (kernel (conn s))
           ∧ ¬ ∃ k, sysTables s !! k = Some t ∧ count_at t s = 0.
Proof.
  intros Hs Hperm. pose proof Hs as (Hok & He & Hb).
  assert (∀ k tbl, sysTables s !! k = Some tbl →
            ∃ pre post, entries = pre ++ (k, tbl) :: post) as Hsplit.
  { intros k tbl Hin. apply list_elem_of_split. rewrite Hperm.
    by apply elem_of_map_to_list. }
  split.
  - apply map_eq. intros i.
    destruct (sysTables s !! i) as [tbl |] eqn:Hi.
    + destruct (Hsplit i tbl Hi) as (pre & post & Heq).
      destruct (visited_entry entries pre post i tbl s Hperm Heq)
        as (_ & Hfate & _).
      destruct (range_steady pre s Hs) as [Hs' Hc'].
      pose proof Hs' as (Hok' & _).
      rewrite Hfate. set (si := delSystemTables_range pre s) in *.
      destruct (decide (count_at tbl s = 0)) as [Hz | Hnz].
      * destruct (iter_deleted i tbl si) as (_ & _ & Hr & _);
          [by rewrite Hc' | by apply delete_committed_ok |].
        rewrite Hr, lookup_delete_eq. symmetry.
        apply map_lookup_filter_None. right. intros tbl' Hi' Hp.
        simpl in Hp. assert (tbl' = tbl) as -> by congruence. done.
      * destruct (iter_nonzero i tbl si) as (_ & Hr & _); [by rewrite Hc' |].
        rewrite Hr.
        assert (sysTables si !! i = Some tbl) as ->.
        { by destruct (visited_entry entries pre post i tbl s Hperm Heq). }
        symmetry. by apply map_lookup_filter_Some.
    + destruct (range_only_removes entries s He) as (Hsub & _).
      assert (sysTables (delSystemTables_range entries s) !! i = None) as ->.
      { destruct (sysTables (delSystemTables_range entries s) !! i) as [x |]
          eqn:Hx; [| done].
        pose proof (lookup_weaken _ _ _ _ Hx Hsub). congruence. }
      symmetry. apply map_lookup_filter_None. by left.
  - intros t. split.
    + intros Hin.
      destruct (range_only_removes entries s He) as (_ & Hsub & _).
      split; [by eapply sublist_subseteq |].
      intros (k & Hk & Hz).
      destruct (Hsplit k t Hk) as (pre & post & Heq).
      destruct (range_steady pre s Hs) as [Hs' Hc'].
      pose proof Hs' as (Hok' & He' & _).
      subst entries. rewrite range_app, range_cons in Hin.
      set (si := delSystemTables_range pre s) in *.
      destruct (iter_deleted k t si) as (Hker & _);
        [by rewrite Hc' | by apply delete_committed_ok |].
      destruct (range_only_removes post
                  (delSystemTables_iter k t si)) as (_ & Hsub' & _);
        [by apply iter_batch_empty |].
      apply (sublist_subseteq _ _ Hsub') in Hin.
      rewrite Hker, apply_batch_snoc in Hin.
      by apply deleted_table_absent in Hin.
    + intros [Hin Hnot].
      destruct (decide (t ∈ tables (kernel (conn (delSystemTables_range
                          entries s))))) as [| Hgone]; [done |].
      exfalso. apply Hnot.
      destruct (range_table_removed entries t s He Hin Hgone)
        as (pre & k & post & Heq & Hc & _).
      destruct (range_steady pre s Hs) as [_ Hc'].
      exists k. split; [| by rewrite <- Hc'].
      by destruct (visiting_order_keys _ _ _ _ _ _ Hperm Heq).
Qed.

(** When no round trip fails, nothing is queued at the start and the rules
    of the kernel fit Go's [int], the outcome of teardown does not depend on
    the order in which the registry is visited: the registry keeps exactly
    the entries whose table counts other than 0 in the state before, and the
    kernel keeps exactly the tables that are not registered with a count
    of 0. *)
Theorem delSystemTables_outcome (entries : list (string * Table)) (s : State) :
  steady s →
  entries ≡ₚ map_to_list (sysTables s) →
  sysTables (delSystemTables_range entries s)
    = filter (λ e, count_at e.2 s ≠ 0) (sysTables s)
  ∧ ∀ t, t ∈ tables (kernel (conn (delSystemTables_range entries s)))
         ↔ t ∈ tables (kernel (conn s))
           ∧ ¬ ∃ k, sysTables s !! k = Some t ∧ count_at t s = 0.
Proof. exact (range_outcome entries s). Qed.

Lemma delSystemTables_outcome_witness :
  steady clean_host
  ∧ sysTables (delSystemTables_range (map_to_list (sysTables clean_host))
                 clean_host)
    = filter (λ e, count_at e.2 clean_host ≠ 0) (sysTables clean_host).
Proof.
  assert (steady clean_host) as Hs.
  { split; [intros i; reflexivity |].
    split; [reflexivity | vm_compute; reflexivity]. }
  split; [exact Hs |].
  exact (proj1 (delSystemTables_outcome
                  (map_to_list (sysTables clean_host)) clean_host Hs
                  (reflexivity _))).
Defined.

(** ** [getTableKey]: when keys tell pairs apart *)

Lemma getTableKey_cons (c : ascii) (name family : string) :
  getTableKey (String c name) family = String c (getTableKey name family).
Proof. reflexivity. Qed.

Lemma getTableKey_length (name family : string) :
  String.length (getTableKey name family)
  = (String.length name + S (String.length family))%nat.
Proof.
  induction name as [| c name IH]; [done |].
  rewrite getTableKey_cons. simpl. by rewrite IH.
Qed.

Lemma getTableKey_same_family (name1 name2 family : string) :
  getTableKey name1 family = getTableKey name2 family → name1 = name2.
Proof.
  revert name2. induction name1 as [| c name1 IH]; intros [| c' name2] Heq.
  - done.
  - apply (f_equal String.length) in Heq.
    rewrite !getTableKey_length in Heq. simpl in Heq. lia.
  - apply (f_equal String.length) in Heq.
    rewrite !getTableKey_length in Heq. simpl in Heq. lia.
  - rewrite !getTableKey_cons in Heq. injection Heq as -> Heq.
    f_equal. by apply IH.
Qed.

Lemma getTableKey_inj_cases :
  (∀ name family1 family2 : string,
     getTableKey name family1 = getTableKey name family2 → family1 = family2)
  ∧ (∀ name1 name2 family : string,
       getTableKey name1 family = getTableKey name2 family → name1 = name2)
  ∧ (∀ name1 family1 name2 family2 : string,
       has_dash name1 = false → has_dash name2 = false →
       getTableKey name1 family1 = getTableKey name2 family2 →
       name1 = name2 ∧ family1 = family2).
Proof.
  split; [| split].
  - intros name family1 family2 Heq. unfold getTableKey in Heq.
    apply (inj (String.app name)) in Heq. by injection Heq.
  - apply getTableKey_same_family.
  - intros name1. induction name1 as [| c name1 IH];
      intros family1 [| c' name2] family2 Hd1 Hd2 Heq.
    + split; [done |]. by injection Heq.
    + rewrite getTableKey_cons in Heq. injection Heq as Hc _.
      cbn [has_dash] in Hd2. apply orb_false_iff in Hd2 as [Hd2 _].
      apply bool_decide_eq_false in Hd2. by destruct Hd2.
    + rewrite getTableKey_cons in Heq. injection Heq as Hc _.
      cbn [has_dash] in Hd1. apply orb_false_iff in Hd1 as [Hd1 _].
      apply bool_decide_eq_false in Hd1. by destruct Hd1.
    + rewrite !getTableKey_cons in Heq. injection Heq as -> Heq.
      cbn [has_dash] in Hd1, Hd2. apply orb_false_iff in Hd1 as [_ Hd1].
      apply orb_false_iff in Hd2 as [_ Hd2].
      destruct (IH family1 name2 family2 Hd1 Hd2 Heq) as [-> ->]. done.
Qed.

Section AnyFamilyFacts.
Variable Other : Type.
Variable Sprint_value : Other → string.

(** [getTableKey] sees of its [family] only what [fmt] prints: a string
    family gives the key the callers in tables.go get, and a family that is
    not a string gives the key of the string it prints as, so the two
    collide.  Up to that, keys tell pairs apart in three cases: with the
    same name the printed families are equal (for two string families, the
    families themselves); with the same family the names are equal; and when
    neither name contains "-", names and printed families are equal. *)
Theorem getTableKey_any_injective_cases :
  (∀ (name s : string),
     getTableKey_any Other Sprint_value name (GoString s) = getTableKey name s)
  ∧ (∀ (name : string) (v : Other),
       getTableKey_any Other Sprint_value name (GoOther v)
       = getTableKey_any Other Sprint_value name (GoString (Sprint_value v)))
  ∧ (∀ (name : string) (family1 family2 : GoValue Other),
       getTableKey_any Other Sprint_value name family1
       = getTableKey_any Other Sprint_value name family2 →
       Sprint_operand Other Sprint_value family1
       = Sprint_operand Other Sprint_value family2)
  ∧ (∀ (name s1 s2 : string),
       getTableKey_any Other Sprint_value name (GoString s1)
       = getTableKey_any Other Sprint_value name (GoString s2) →
       s1 = s2)
  ∧ (∀ (name1 name2 : string) (family : GoValue Other),
       getTableKey_any Other Sprint_value name1 family
       = getTableKey_any Other Sprint_value name2 family →
       name1 = name2)
  ∧ (∀ (name1 name2 : string) (family1 family2 : GoValue Other),
       has_dash name1 = false → has_dash name2 = false →
       getTableKey_any Other Sprint_value name1 family1
       = getTableKey_any Other Sprint_value name2 family2 →
       name1 = name2
       ∧ Sprint_operand Other Sprint_value family1
         = Sprint_operand Other Sprint_value family2).
Proof.
  destruct getTableKey_inj_cases as (Hname & Hfamily & Hpairs).
  split; [done |]. split; [done |]. split; [| split; [| split]].
  - intros name family1 family2. apply Hname.
  - intros name s1 s2. apply Hname.
  - intros name1 name2 family. apply Hfamily.
  - intros name1 name2 family1 family2. apply Hpairs.
Qed.

End AnyFamilyFacts.

(** The family code 1 and the string "1" give the filter table the same
    key. *)
Lemma getTableKey_any_injective_cases_witness :
  getTableKey_any Z sample_Sprint "filter" (GoOther 1)
  = getTableKey_any Z sample_Sprint "filter" (GoString "1")
  ∧ has_dash "filter" = false
  ∧ Sprint_operand Z sample_Sprint (GoOther 1)
    = Sprint_operand Z sample_Sprint (GoString "1").
Proof.
  destruct (getTableKey_any_injective_cases Z sample_Sprint)
    as (_ & Hother & _ & _ & _ & Hpairs).
  assert (has_dash "filter" = false) as Hd by (vm_compute; reflexivity).
  split; [exact (Hother "filter" 1) |]. split; [exact Hd |].
  exact (proj2 (Hpairs "filter" "filter" (GoOther 1) (GoString "1") Hd Hd
                  (Hother "filter" 1))).
Defined.

(** ** [AddTable] and the startup functions: what they leave alone *)

Lemma listed_rules_chains (k k' : Kernel) :
  chains k' = chains k → listed_rules k' = listed_rules k.
Proof. intros H. unfold listed_rules, rules_listed. by rewrite H. Qed.

Lemma chains_after_new (k : Kernel) (t : Table) :
  chains (apply_msg k (NewTable t)) = chains k.
Proof. simpl. by case_bool_decide. Qed.

Lemma tables_after_new (k : Kernel) (t : Table) :
  tables k `prefix_of` tables (apply_msg k (NewTable t)).
Proof. simpl. case_bool_decide; [done |]. simpl. by apply prefix_app_r. Qed.

Section StartupFacts.
Variable getFamilyCode : string → TableFamily.

Lemma AddTable_untouched (name family : string) (s : State) :
  logged (AddTable getFamilyCode name family s).2 = logged s
  ∧ messages (conn (AddTable getFamilyCode name family s).2) = []
  ∧ clock (conn (AddTable getFamilyCode name family s).2) = S (clock (conn s))
  ∧ netlink_ok (conn (AddTable getFamilyCode name family s).2)
    = netlink_ok (conn s)
  ∧ (∀ key, key ≠ getTableKey name family →
       sysTables (AddTable getFamilyCode name family s).2 !! key
       = sysTables s !! key)
  ∧ ((AddTable getFamilyCode name family s).1.2 ≠ None →
     kernel (conn (AddTable getFamilyCode name family s).2) = kernel (conn s))
  ∧ (messages (conn s) = [] →
     chains (kernel (conn (AddTable getFamilyCode name family s).2))
     = chains (kernel (conn s))
     ∧ tables (kernel (conn s))
         `prefix_of`
         tables (kernel (conn (AddTable getFamilyCode name family s).2))).
Proof.
  rewrite AddTable_unfold. cbv zeta.
  destruct (add_committed _ s) eqn:Hok; unfold add_committed in Hok;
    rewrite Commit_result in Hok; simpl in *; rewrite Hok.
  - repeat (split; [done |]).
    split; [intros key Hne; by apply lookup_insert_ne |].
    split; [done |]. intros He. rewrite He. cbn [app apply_batch foldl].
    split; [apply chains_after_new | apply tables_after_new].
  - split_and!; done.
Qed.

(** [AddTable] makes one round trip, leaves nothing queued, and does not
    touch the log nor any registry entry under another key.  When it returns
    an error the kernel is as before.  With nothing queued beforehand it
    changes no chain, and every table the kernel had is still there, in the
    same place. *)
Theorem AddTable_frame (name family : string) (s : State) :
  logged (AddTable getFamilyCode name family s).2 = logged s
  ∧ messages (conn (AddTable getFamilyCode name family s).2) = []
  ∧ clock (conn (AddTable getFamilyCode name family s).2) = S (clock (conn s))
  ∧ netlink_ok (conn (AddTable getFamilyCode name family s).2)
    = netlink_ok (conn s)
  ∧ (∀ key, key ≠ getTableKey name family →
       sysTables (AddTable getFamilyCode name family s).2 !! key
       = sysTables s !! key)
  ∧ ((AddTable getFamilyCode name family s).1.2 ≠ None →
     kernel (conn (AddTable getFamilyCode name family s).2) = kernel (conn s))
  ∧ (messages (conn s) = [] →
     chains (kernel (conn (AddTable getFamilyCode name family s).2))
     = chains (kernel (conn s))
     ∧ tables (kernel (conn s))
         `prefix_of`
         tables (kernel (conn (AddTable getFamilyCode name family s).2))).
Proof. exact (AddTable_untouched name family s). Qed.

(** Adding a table leaves the registered handle of every other pair alone,
    as long as the two names contain no "-": whatever [AddTable] returns, a
    lookup for the other pair answers as before. *)
Theorem AddTable_keeps_other_pairs (name family name' family' : string)
    (s : State) :
  has_dash name = false → has_dash name' = false →
  (name, family) ≠ (name', family') →
  getTable name family (AddTable getFamilyCode name' family' s).2
  = getTable name family s.
Proof.
  intros Hd Hd' Hne. unfold getTable, sysTables_Get.
  destruct (AddTable_untouched name' family' s) as (_ & _ & _ & _ & Hreg & _).
  apply Hreg. intros Hkey.
  destruct getTableKey_inj_cases as (_ & _ & Hinj).
  destruct (Hinj name family name' family' Hd Hd' Hkey) as [-> ->]. done.
Qed.

Lemma addSystemTables_unfold (s : State) :
  addSystemTables getFamilyCode s
  = (AddTable getFamilyCode NFT_CHAIN_FILTER NFT_FAMILY_INET
       (AddTable getFamilyCode NFT_CHAIN_MANGLE NFT_FAMILY_INET s).2).2.
Proof. reflexivity. Qed.

(** [addSystemTables] does what [addInterceptionTables] does when the mangle
    table is added without error.  When adding the mangle table fails,
    [addInterceptionTables] stops there, while [addSystemTables] goes on: if
    the commit for the filter table then succeeds, the filter table is
    registered and the mangle entry is what it was before. *)
Theorem addSystemTables_ignores_errors (s : State) :
  let mangle := {| Family := getFamilyCode NFT_FAMILY_INET;
                   Name := NFT_CHAIN_MANGLE |} in
  let filter := {| Family := getFamilyCode NFT_FAMILY_INET;
                   Name := NFT_CHAIN_FILTER |} in
  let first := AddTable getFamilyCode NFT_CHAIN_MANGLE NFT_FAMILY_INET s in
  (add_committed mangle s = true →
   addSystemTables getFamilyCode s = (addInterceptionTables getFamilyCode s).2)
  ∧ (add_committed mangle s = false →
     (addInterceptionTables getFamilyCode s).2 = first.2
     ∧ (add_committed filter first.2 = true →
        getTable NFT_CHAIN_FILTER NFT_FAMILY_INET
          (addSystemTables getFamilyCode s) = Some filter
        ∧ getTable NFT_CHAIN_MANGLE NFT_FAMILY_INET
            (addSystemTables getFamilyCode s)
          = getTable NFT_CHAIN_MANGLE NFT_FAMILY_INET s
        ∧ filter ∈ tables (kernel (conn (addSystemTables getFamilyCode s))))).
Proof.
  intros mangle filter first.
  pose proof (addInterceptionTables_unfold getFamilyCode s) as Hi.
  fold first in Hi. rewrite addSystemTables_unfold. fold first. split.
  - intros Hok.
    destruct (AddTable_succeeded getFamilyCode _ _ s Hok) as (Hr & _).
    fold first in Hr. rewrite Hi, Hr. simpl.
    by destruct (AddTable getFamilyCode NFT_CHAIN_FILTER NFT_FAMILY_INET
                   first.2).1.2.
  - intros Hfail.
    destruct (AddTable_failed getFamilyCode _ _ s Hfail) as (Hr & Hreg & _).
    fold first in Hr, Hreg. split; [by rewrite Hi, Hr |].
    intros Hok.
    destruct (AddTable_succeeded getFamilyCode _ _ first.2 Hok)
      as (_ & Hreg2 & Hk2 & _).
    fold filter in Hreg2, Hk2.
    unfold getTable, sysTables_Get. rewrite Hreg2, Hreg. split; [| split].
    + apply lookup_insert_eq.
    + apply lookup_insert_ne. by vm_compute.
    + rewrite Hk2. apply new_table_present.
Qed.

Lemma AddTable_steady (name family : string) (s : State) :
  steady s →
  steady (AddTable getFamilyCode name family s).2
  ∧ listed_rules (kernel (conn (AddTable getFamilyCode name family s).2))
    = listed_rules (kernel (conn s))
  ∧ add_committed {| Family := getFamilyCode family; Name := name |} s = true.
Proof.
  intros (Hok & He & Hb).
  destruct (AddTable_untouched name family s)
    as (_ & Hm & _ & Ho & _ & _ & Hc).
  destruct (Hc He) as [Hch _].
  pose proof (listed_rules_chains _ _ Hch) as Hl.
  split; [| split; [done |]].
  - split; [| split; [done | by rewrite Hl]].
    intros i. rewrite Ho. apply Hok.
  - unfold add_committed. rewrite Commit_result. simpl. apply Hok.
Qed.

(** Teardown on a host without rules removes all that is registered. *)
Lemma range_without_rules (entries : list (string * Table)) (s : State) :
  steady s → listed_rules (kernel (conn s)) = 0 →
  entries ≡ₚ map_to_list (sysTables s) →
  sysTables (delSystemTables_range entries s) = ∅
  ∧ ∀ k t, sysTables s !! k = Some t →
           t ∉ tables (kernel (conn (delSystemTables_range entries s))).
Proof.
  intros Hs Hz Hperm.
  assert (∀ t, count_at t s = 0) as Hcount.
  { intros t. rewrite (steady_count t s Hs).
    pose proof (counted_total_bounds t (kernel (conn s))). lia. }
  destruct (range_outcome entries s Hs Hperm) as [Hreg Htab]. split.
  - rewrite Hreg. apply map_empty. intros i.
    apply map_lookup_filter_None. right. intros t _ Hp. by apply Hp.
  - intros k t Hk Hin. apply Htab in Hin as [_ Hnot]. apply Hnot.
    by exists k.
Qed.

(** Startup followed by teardown on a host that holds no rule, with no round
    trip failing and nothing queued: whatever the visiting order, the
    registry ends up empty, and neither interception table is in the
    kernel. *)
Theorem addInterceptionTables_then_delSystemTables (s : State)
    (entries : list (string * Table)) :
  let started := (addInterceptionTables getFamilyCode s).2 in
  steady s → listed_rules (kernel (conn s)) = 0 →
  entries ≡ₚ map_to_list (sysTables started) →
  (addInterceptionTables getFamilyCode s).1 = None
  ∧ sysTables (delSystemTables_range entries started) = ∅
  ∧ ({| Family := getFamilyCode NFT_FAMILY_INET; Name := NFT_CHAIN_MANGLE |}
       ∉ tables (kernel (conn (delSystemTables_range entries started))))
  ∧ ({| Family := getFamilyCode NFT_FAMILY_INET; Name := NFT_CHAIN_FILTER |}
       ∉ tables (kernel (conn (delSystemTables_range entries started)))).
Proof.
  intros started Hs Hz Hperm.
  destruct (AddTable_steady NFT_CHAIN_MANGLE NFT_FAMILY_INET s Hs)
    as (Hs1 & Hl1 & Hok1).
  set (s1 := (AddTable getFamilyCode NFT_CHAIN_MANGLE NFT_FAMILY_INET s).2)
    in *.
  destruct (AddTable_steady NFT_CHAIN_FILTER NFT_FAMILY_INET s1 Hs1)
    as (Hs2 & Hl2 & Hok2).
  destruct (AddTable_succeeded getFamilyCode _ _ s Hok1) as (Hr1 & Hreg1 & _).
  fold s1 in Hreg1.
  destruct (AddTable_succeeded getFamilyCode _ _ s1 Hok2) as (Hr2 & Hreg2 & _).
  pose proof (addInterceptionTables_unfold getFamilyCode s) as Hi.
  fold s1 in Hi. rewrite Hr1 in Hi. simpl in Hi. rewrite Hr2 in Hi.
  simpl in Hi.
  assert (started
          = (AddTable getFamilyCode NFT_CHAIN_FILTER NFT_FAMILY_INET s1).2)
    as Hst by (unfold started; by rewrite Hi).
  rewrite Hst in *. clear started Hst.
  destruct (range_without_rules entries _ Hs2) as [Hempty Hgone];
    [by rewrite Hl2, Hl1 | done |].
  split; [by rewrite Hi |]. split; [done |]. split.
  - apply (Hgone (getTableKey NFT_CHAIN_MANGLE NFT_FAMILY_INET)).
    rewrite Hreg2, Hreg1. rewrite lookup_insert_ne by (by vm_compute).
    apply lookup_insert_eq.
  - apply (Hgone (getTableKey NFT_CHAIN_FILTER NFT_FAMILY_INET)).
    rewrite Hreg2. apply lookup_insert_eq.
Qed.

End StartupFacts.

Lemma AddTable_frame_witness :
  messages (conn shared_host) = []
  ∧ chains (kernel (conn (AddTable sample_getFamilyCode "mangle" "inet"
                            shared_host).2))
    = chains (kernel (conn shared_host)).
Proof.
  assert (messages (conn shared_host) = []) as He by reflexivity.
  split; [exact He |].
  destruct (AddTable_frame sample_getFamilyCode "mangle" "inet" shared_host)
    as (_ & _ & _ & _ & _ & _ & Hc).
  exact (proj1 (Hc He)).
Defined.

Lemma AddTable_keeps_other_pairs_witness :
  has_dash "filter" = false ∧ has_dash "mangle" = false
  ∧ getTable "filter" "inet"
      (AddTable sample_getFamilyCode "mangle" "inet" shared_host).2
    = getTable "filter" "inet" shared_host.
Proof.
  assert (has_dash "filter" = false) as H1 by (vm_compute; reflexivity).
  assert (has_dash "mangle" = false) as H2 by (vm_compute; reflexivity).
  split; [exact H1 |]. split; [exact H2 |].
  apply (AddTable_keeps_other_pairs sample_getFamilyCode "filter" "inet"
           "mangle" "inet" shared_host H1 H2).
  discriminate.
Defined.

Lemma addSystemTables_ignores_errors_witness :
  add_committed {| Family := sample_getFamilyCode NFT_FAMILY_INET;
                   Name := NFT_CHAIN_MANGLE |} fresh_host_failing = false
  ∧ getTable NFT_CHAIN_FILTER NFT_FAMILY_INET
      (addSystemTables sample_getFamilyCode fresh_host_failing)
    = Some {| Family := sample_getFamilyCode NFT_FAMILY_INET;
              Name := NFT_CHAIN_FILTER |}
  ∧ add_committed {| Family := sample_getFamilyCode NFT_FAMILY_INET;
                     Name := NFT_CHAIN_MANGLE |} fresh_host = true
  ∧ addSystemTables sample_getFamilyCode fresh_host
    = (addInterceptionTables sample_getFamilyCode fresh_host).2.
Proof.
  assert (add_committed {| Family := sample_getFamilyCode NFT_FAMILY_INET;
                           Name := NFT_CHAIN_MANGLE |} fresh_host_failing
          = false) as Hf by (vm_compute; reflexivity).
  assert (add_committed {| Family := sample_getFamilyCode NFT_FAMILY_INET;
                           Name := NFT_CHAIN_MANGLE |} fresh_host = true)
    as Ht by (vm_compute; reflexivity).
  split; [exact Hf |]. split; [| split; [exact Ht |]].
  - destruct (addSystemTables_ignores_errors sample_getFamilyCode
                fresh_host_failing) as (_ & Hgo).
    destruct (Hgo Hf) as (_ & Hfilter).
    refine (proj1 (Hfilter _)). vm_compute. reflexivity.
  - destruct (addSystemTables_ignores_errors sample_getFamilyCode fresh_host)
      as (Hsame & _).
    exact (Hsame Ht).
Defined.

Lemma addInterceptionTables_then_delSystemTables_witness :
  steady fresh_host
  ∧ listed_rules (kernel (conn fresh_host)) = 0
  ∧ sysTables (delSystemTables
                 (addInterceptionTables sample_getFamilyCode fresh_host).2)
    = ∅.
Proof.
  assert (steady fresh_host) as Hs.
  { split; [intros i; reflexivity |].
    split; [reflexivity | vm_compute; reflexivity]. }
  assert (listed_rules (kernel (conn fresh_host)) = 0) as Hz
    by (vm_compute; reflexivity).
  split; [exact Hs |]. split; [exact Hz |].
  exact (proj1 (proj2 (addInterceptionTables_then_delSystemTables
                         sample_getFamilyCode fresh_host
                         (map_to_list (sysTables (addInterceptionTables
                            sample_getFamilyCode fresh_host).2))
                         Hs Hz (reflexivity _)))).
Defined.

(** * Properties of the launcher *)

Lemma split_dots_nonempty (s : string) : ∃ piece pieces, split_dots s = piece :: pieces.
Proof.
  induction s as [| c rest (piece & pieces & IH)]; simpl; [by eexists _, _ |].
  case_bool_decide; [by eexists _, _ |]. rewrite IH. by eexists _, _.
Qed.

Lemma prefix_unix_nonempty (s : string) : starts_with_unix s = true → s ≠ "".
Proof. by intros H ->. Qed.

Section LauncherFacts.
Variable py_int : string → option Z.
Variable dir_exists : string → bool.
Variable abspath : string → string.
Variable auth_Simple : string.
Variable Creds : Type.
Variable get_tls_credentials : option string → option string → option Creds.

(** For a version string whose first three pieces are numbers,
    [supported_qt_version] answers whether each of them is at least the one
    asked for.  It compares piece by piece, not as versions: a version with a
    higher first number and a lower second one is refused. *)
Theorem supported_qt_version_componentwise (version : string)
    (major medium minor : Z) (a b c : string) (rest : list string)
    (x y z : Z) :
  split_dots version = a :: b :: c :: rest →
  py_int a = Some x → py_int b = Some y → py_int c = Some z →
  supported_qt_version py_int version major medium minor
    = inr (bool_decide (major ≤ x ∧ medium ≤ y ∧ minor ≤ z))
  ∧ (major < x → y < medium →
     supported_qt_version py_int version major medium minor = inr false).
Proof.
  intros Hq Ha Hb Hc.
  assert (supported_qt_version py_int version major medium minor
          = inr (bool_decide (major ≤ x ∧ medium ≤ y ∧ minor ≤ z))) as Hv.
  { unfold supported_qt_version, int_at. rewrite Hq. simpl.
    rewrite Ha, Hb, Hc.
    destruct (Z.leb_spec major x); simpl;
      [| by rewrite bool_decide_eq_false_2 by lia].
    destruct (Z.leb_spec medium y); simpl;
      [| by rewrite bool_decide_eq_false_2 by lia].
    destruct (Z.leb_spec minor z).
    - by rewrite bool_decide_eq_true_2 by lia.
    - by rewrite bool_decide_eq_false_2 by lia. }
  split; [exact Hv |]. intros Hx Hy. rewrite Hv.
  by rewrite bool_decide_eq_false_2 by lia.
Qed.

(** [supported_qt_version] looks at a piece of the version only when the
    pieces before it were high enough.  The first piece is always there;
    when it is a number below [major] the answer is [False] whatever
    follows; when it is high enough and it is the only piece, the call
    raises IndexError.  IndexError is raised only for versions of fewer than
    three pieces. *)
Theorem supported_qt_version_short_circuit (version : string)
    (major medium minor : Z) :
  (∃ a, split_dots version !! 0%nat = Some a)
  ∧ (∀ a x, split_dots version !! 0%nat = Some a → py_int a = Some x →
       (x < major →
        supported_qt_version py_int version major medium minor = inr false)
       ∧ (major ≤ x → split_dots version = [a] →
          supported_qt_version py_int version major medium minor
            = inl IndexError))
  ∧ (supported_qt_version py_int version major medium minor = inl IndexError →
     (length (split_dots version) < 3)%nat).
Proof.
  split; [| split].
  - destruct (split_dots_nonempty version) as (piece & pieces & ->).
    by exists piece.
  - intros a x Hq Ha. unfold supported_qt_version, int_at. rewrite Hq, Ha.
    split.
    + intros Hx. destruct (Z.leb_spec major x); [lia | done].
    + intros Hx ->. destruct (Z.leb_spec major x); [done | lia].
  - unfold supported_qt_version, int_at.
    destruct (split_dots version) as [| a [| b [| c rest]]]; simpl;
      [lia | lia | lia |].
    intros H. exfalso.
    destruct (py_int a) as [x |]; [| done].
    destruct (negb (major <=? x)); [done |].
    destruct (py_int b) as [y |]; [| done].
    destruct (negb (medium <=? y)); [done |].
    by destruct (py_int c).
Qed.

(** The choice of the server address: a [--socket] value is taken as it is
    and nothing is printed.  Without it the address is never empty: it is the
    default, or the configured address; a configured unix address is taken
    only when the directory of its path exists, and otherwise the default is
    used and the warning printed, while any other configured address is taken
    unchecked. *)
Theorem choose_socket_cases (cli addr : option string) :
  (∀ given, cli = Some given →
     choose_socket dir_exists cli addr = (given, []))
  ∧ (cli = None →
     (choose_socket dir_exists cli addr).1 ≠ ""
     ∧ ((choose_socket dir_exists cli addr).1 = default_socket
        ∨ addr = Some (choose_socket dir_exists cli addr).1)
     ∧ (∀ a, addr = Some a → starts_with_unix a = true →
          dir_exists (string_drop 7 a) = false →
          (choose_socket dir_exists cli addr).1 = default_socket
          ∧ (choose_socket dir_exists cli addr).2 ≠ [])
     ∧ (∀ a, addr = Some a → a ≠ "" → starts_with_unix a = false →
          choose_socket dir_exists cli addr = (a, []))).
Proof.
  split; [by intros given -> |]. intros ->. unfold choose_socket.
  split; [| split; [| split]].
  - destruct addr as [a |]; [| done]. case_bool_decide; [done |].
    destruct (starts_with_unix a); [| done].
    by destruct (negb (dir_exists (string_drop 7 a))).
  - destruct addr as [a |]; [| by left]. case_bool_decide; [by left |].
    destruct (starts_with_unix a); [| by right].
    destruct (negb (dir_exists (string_drop 7 a))); [by left | by right].
  - intros a -> Hu Hd. rewrite Hu, Hd.
    rewrite bool_decide_eq_false_2 by (by apply prefix_unix_nonempty). done.
  - intros a -> Hne Hu. rewrite Hu. by rewrite bool_decide_eq_false_2.
Qed.

(** Opening the port: a unix address is always served without TLS, whatever
    the authentication settings.  For any other address the authentication
    type is that of [--socket-auth], else the configured one, else simple;
    when it is neither simple nor empty the port is never opened without
    TLS: it is opened with the credentials obtained, or the launcher raises.
    The certificate and key of the command line go before the configured
    ones. *)
Theorem open_port_cases (args : Args) (cfg : Cfg) :
  (starts_with_unix (socket args) = true →
   open_port abspath auth_Simple Creds get_tls_credentials args cfg
   = add_insecure_port Creds
       ("unix:" +:+ abspath (string_drop 7 (socket args))))
  ∧ (starts_with_unix (socket args) = false →
     (chosen_auth_type auth_Simple args cfg = auth_Simple
      ∨ chosen_auth_type auth_Simple args cfg = "" →
      open_port abspath auth_Simple Creds get_tls_credentials args cfg
      = add_insecure_port Creds (socket args))
     ∧ (chosen_auth_type auth_Simple args cfg ≠ auth_Simple →
        chosen_auth_type auth_Simple args cfg ≠ "" →
        open_port abspath auth_Simple Creds get_tls_credentials args cfg
        = match get_tls_credentials
                  (or_else (tls_cert args) (AUTH_CERT cfg))
                  (or_else (tls_key args) (AUTH_CERTKEY cfg)) with
          | Some creds => add_secure_port Creds (socket args) creds
          | None =>
              raise_Exception Creds
                "Invalid TLS credentials. Review the server key and cert files."
          end
        ∧ ∀ address,
            open_port abspath auth_Simple Creds get_tls_credentials args cfg
            ≠ add_insecure_port Creds address))
  ∧ (∀ a, socket_auth args = Some a →
       chosen_auth_type auth_Simple args cfg = a).
Proof.
  unfold open_port. split; [by intros -> |]. split.
  - intros ->. split.
    + intros [-> | ->].
      * by rewrite bool_decide_eq_true_2.
      * rewrite (bool_decide_eq_true_2 (_ = "")) by done.
        by rewrite orb_true_r.
    + intros H1 H2. rewrite !bool_decide_eq_false_2 by done. simpl.
      split; [done |]. intros address.
      by destruct (get_tls_credentials _ _).
  - intros a Ha. unfold chosen_auth_type. by rewrite Ha.
Qed.

End LauncherFacts.

Lemma supported_qt_version_componentwise_witness :
  split_dots "6.0.0" = "6" :: "0" :: "0" :: []
  ∧ supported_qt_version sample_int "6.0.0" 5 6 0 = inr false.
Proof.
  assert (split_dots "6.0.0" = "6" :: "0" :: "0" :: []) as Hq
    by (vm_compute; reflexivity).
  split; [exact Hq |].
  refine (proj2 (supported_qt_version_componentwise sample_int "6.0.0" 5 6 0
                   "6" "0" "0" [] 6 0 0 Hq _ _ _) _ _);
    vm_compute; reflexivity.
Defined.

Lemma supported_qt_version_short_circuit_witness :
  split_dots "5" !! 0%nat = Some "5"
  ∧ supported_qt_version sample_int "5" 5 6 0 = inl IndexError
  ∧ supported_qt_version sample_int "4" 5 6 0 = inr false.
Proof.
  assert (split_dots "5" !! 0%nat = Some "5") as Hq by (vm_compute; reflexivity).
  split; [exact Hq |]. split.
  - destruct (supported_qt_version_short_circuit sample_int "5" 5 6 0)
      as (_ & Hfirst & _).
    refine (proj2 (Hfirst "5" 5 Hq _) _ _); vm_compute; try reflexivity.
    discriminate.
  - destruct (supported_qt_version_short_circuit sample_int "4" 5 6 0)
      as (_ & Hfirst & _).
    refine (proj1 (Hfirst "4" 4 _ _) _); vm_compute; reflexivity.
Defined.

Lemma choose_socket_cases_witness :
  starts_with_unix "unix:///run/user/osui.sock" = true
  ∧ (choose_socket (λ _, false) None (Some "unix:///run/user/osui.sock")).1
    = default_socket
  ∧ choose_socket (λ _, false) None (Some "[::]:50051") = ("[::]:50051", []).
Proof.
  assert (starts_with_unix "unix:///run/user/osui.sock" = true) as Hu
    by (vm_compute; reflexivity).
  split; [exact Hu |].
  destruct (choose_socket_cases (λ _, false) None
              (Some "unix:///run/user/osui.sock")) as (_ & Hnone).
  destruct (Hnone eq_refl) as (_ & _ & Hmissing & _).
  split; [exact (proj1 (Hmissing _ eq_refl Hu eq_refl)) |].
  destruct (choose_socket_cases (λ _, false) None (Some "[::]:50051"))
    as (_ & Hnone').
  destruct (Hnone' eq_refl) as (_ & _ & _ & Hother).
  apply (Hother "[::]:50051" eq_refl); [discriminate | vm_compute; reflexivity].
Defined.

Lemma open_port_cases_witness :
  starts_with_unix "unix:///tmp/osui.sock" = true
  ∧ open_port (λ p, p) "simple" (string * string) sample_tls
      {| socket := "unix:///tmp/osui.sock"; socket_auth := Some "tls-mutual";
         tls_cert := None; tls_key := None |}
      {| AUTH_TYPE := None; AUTH_CERT := None; AUTH_CERTKEY := None |}
    = add_insecure_port (string * string)
        ("unix:" +:+ string_drop 7 "unix:///tmp/osui.sock")
  ∧ ∀ address,
      open_port (λ p, p) "simple" (string * string) sample_tls
        {| socket := "[::]:50051"; socket_auth := Some "tls-mutual";
           tls_cert := None; tls_key := None |}
        {| AUTH_TYPE := None; AUTH_CERT := None; AUTH_CERTKEY := None |}
      ≠ add_insecure_port (string * string) address.
Proof.
  assert (starts_with_unix "unix:///tmp/osui.sock" = true) as Hu
    by (vm_compute; reflexivity).
  split; [exact Hu |]. split.
  - exact (proj1 (open_port_cases (λ p, p) "simple" (string * string)
                    sample_tls
                    {| socket := "unix:///tmp/osui.sock";
                       socket_auth := Some "tls-mutual";
                       tls_cert := None; tls_key := None |}
                    {| AUTH_TYPE := None; AUTH_CERT := None;
                       AUTH_CERTKEY := None |}) Hu).
  - destruct (open_port_cases (λ p, p) "simple" (string * string) sample_tls
                {| socket := "[::]:50051"; socket_auth := Some "tls-mutual";
                   tls_cert := None; tls_key := None |}
                {| AUTH_TYPE := None; AUTH_CERT := None;
                   AUTH_CERTKEY := None |}) as (_ & Htcp & _).
    destruct (Htcp eq_refl) as (_ & Htls).
    refine (proj2 (Htls _ _)); discriminate.
Defined.
